(** * socket-server: trade ingestion, bounded history and fan-out

    A shallow embedding of the three versions of the server that the
    repository holds:

    - [Debounce]: the first version in [src/server.ts] (lines 1-197): pair
      listener, 30-entry buffer, per-address debounce of new connections,
      backfill on the first connection when the buffer is empty;
    - [Persist]: the second version in [src/server.ts] (lines 198-449):
      external transaction stream and pair listener feeding one 100-entry
      buffer that is saved to [trades.json], backfill merged at start-up;
    - [Store]: [unnamed/part_000]: external transactions kept in
      [transactionStore] (100 entries), pair trades in a 30-entry buffer.

    Node runs every handler to completion before the next one starts, so a
    handler is a function from server state to server state and the process
    is a fold of handlers over the sequence of events it receives.  An
    [await] splits a handler in two: the part before it and the part run
    when the awaited promise settles. *)

From stdpp Require Import gmap strings list sorting.
From Stdlib Require Import QArith.
From Stdlib Require Import Floats.SpecFloat.

Local Open Scope Z_scope.

(** ** Numbers

    A JavaScript number is a double.  It is kept here as the rational it
    denotes, read up to [==].  [ethers.formatUnits(v, d)] prints the integer
    [v] as the decimal [v / 10^d]; [parseFloat] reads that text back as the
    double nearest to it, ties going to the even significand. *)

Definition formatUnits (value : N) (decimals : N) : Q :=
  Qmake (Z.of_N value) (Z.to_pos (10 ^ Z.of_N decimals)).

(** The [k] with [2^k <= n / d < 2^(k+1)]. *)
Definition floorLog2 (n d : positive) : Z :=
  let c := Z.log2 (Zpos n) - Z.log2 (Zpos d) in
  if Zpos d * 2 ^ Z.max c 0 <=? Zpos n * 2 ^ Z.max (- c) 0 then c else c - 1.

(** [n / d] rounded to a multiple [m * 2^e] of the spacing [2^e] that the
    doubles have around it: 53 bits of significand, and no exponent below
    -1074, where the doubles are subnormal. *)
Definition significand (n d : positive) : Z * Z :=
  let e := Z.max (floorLog2 n d - 52) (-1074) in
  let num := Zpos n * 2 ^ Z.max (- e) 0 in
  let den := Zpos d * 2 ^ Z.max e 0 in
  let q := num / den in
  let r := num mod den in
  let m := if (den <? 2 * r) || ((den =? 2 * r) && Z.odd q) then q + 1 else q in
  (m, e).

(** The double nearest to [n / d].  From [2^1024] on the double is
    [Infinity], which no rational denotes; [2^1024] stands for it, above
    every finite double.  The amounts of an event are [uint256] and are
    divided by [10^6] or [10^18], so what [formatUnits] prints stays far
    below it. *)
Definition nearestDouble (n d : positive) : Q :=
  let '(m, e) := significand n d in
  if 2 ^ 1024 * 2 ^ Z.max (- e) 0 <=? m * 2 ^ Z.max e 0
  then Qmake (2 ^ 1024) 1
  else Qmake (m * 2 ^ Z.max e 0) (Z.to_pos (2 ^ Z.max (- e) 0)).

(** A text that denotes a double stands for that double as it is. *)
Definition parseFloat (text : Q) : Q :=
  let number :=
    match Qnum text with
    | Z0 => 0%Q
    | Zpos n => nearestDouble n (Qden text)
    | Zneg n => Qopp (nearestDouble n (Qden text))
    end in
  if Qeq_bool number text then text else number.

(** The same quotient by the division of the standard library's
    specification of IEEE 754 arithmetic, at the precision and exponent range of
    the doubles; used below to check [nearestDouble] on samples. *)
Definition SF2Q (x : spec_float) : Q :=
  match x with
  | S754_finite s m e =>
      Qmake ((if s then Zneg m else Zpos m) * 2 ^ Z.max e 0) (Z.to_pos (2 ^ Z.max (- e) 0))
  | S754_infinity _ => Qmake (2 ^ 1024) 1
  | _ => 0%Q
  end.

Definition quotientSF (n d : positive) : Q :=
  SF2Q (SFdiv 53 1024 (S754_finite false n 0) (S754_finite false d 0)).

(** [x === 0] on numbers. *)
Definition isZero (x : Q) : bool := Qeq_bool x 0.

(** ** Exceptions

    A computation inside a [try] block either completes or throws; [await]
    of a rejected promise throws. *)
Inductive Error := RpcError | ReferenceError | DecodeError.

Inductive Completion (A : Type) :=
  | Normal (a : A)
  | Throw (e : Error).
Arguments Normal {A} a.
Arguments Throw {A} e.

#[global] Instance Completion_ret : MRet Completion := fun A a => Normal a.
#[global] Instance Completion_bind : MBind Completion := fun A B f m =>
  match m with
  | Normal a => f a
  | Throw e => Throw e
  end.

(** [await p], where the promise [p] resolves with a value or rejects. *)
Definition await {A} (p : option A) : Completion A :=
  match p with
  | Some a => Normal a
  | None => Throw RpcError
  end.

(** [try { body } catch (err) { console.error(...) }] around a body that
    computes the next state: a throw leaves the state as it was. *)
Definition tryCatch {S} (body : Completion S) (s : S) : S :=
  match body with
  | Normal s' => s'
  | Throw _ => s
  end.

(** ** What the chain node delivers *)

(** The arguments of one [Swap] event, after ABI decoding: the four amounts
    are [uint], hence never negative. *)
Record SwapArgs := {
  sender : string;
  amount0In : N;
  amount1In : N;
  amount0Out : N;
  amount1Out : N;
  to : string
}.

(** A log returned by [getLogs], with the arguments that
    [iface.decodeEventLog("Swap", log.data, log.topics)] finds in it. *)
Record Log := {
  blockNumber : Z;
  transactionIndex : Z;
  transactionHash : string;
  decoded : SwapArgs
}.

(** The JSON-RPC node as [fetchInitialTrades] sees it: [getBlockNumber]
    and [getLogs] either resolve or reject ([None]). *)
Record Rpc := {
  currentBlockNumber : option Z;
  pairLogs : option (list Log)
}.

Definition getBlockNumber (rpc : Rpc) : option Z := currentBlockNumber rpc.

Definition getLogs (rpc : Rpc) (fromBlock toBlock : Z) : option (list Log) :=
  filter (fun l => fromBlock <= blockNumber l /\ blockNumber l <= toBlock) <$> pairLogs rpc.

(** The comparator passed to [logs.sort]. *)
Definition compareLogs (a b : Log) : Z :=
  if negb (blockNumber a =? blockNumber b)
  then blockNumber b - blockNumber a
  else transactionIndex b - transactionIndex a.

(** [a] may stand before [b] in a list that is ordered by block height
    descending, then by position in the block descending. *)
Definition notOlder (a b : Log) : Prop :=
  blockNumber b < blockNumber a \/
  (blockNumber a = blockNumber b /\ transactionIndex b <= transactionIndex a).

(** [Array.prototype.sort] is a stable sort: [a] ends up before [b] when
    the comparator is negative, and elements that compare equal keep their
    order.  Insertion from the right is such a sort. *)
Fixpoint insertLog (x : Log) (l : list Log) : list Log :=
  match l with
  | [] => [x]
  | y :: l' => if compareLogs x y <=? 0 then x :: l else y :: insertLog x l'
  end.

Definition sortLogs (logs : list Log) : list Log := foldr insertLog [] logs.

(** [array.slice(0, n)] *)
Definition slice0 {A} (n : nat) (l : list A) : list A := take n l.
Arguments slice0 : simpl never.

(** ** The trade logic shared by [Debounce] and [Store]

    [emitNewTrade]'s buffer update, the [Swap] callback and
    [fetchInitialTrades] are the same text in the first version of
    [src/server.ts] and in [unnamed/part_000]. *)
Module Swap.

Inductive Action := buy | sell.

Record Trade := {
  hash : string;
  time : string;
  buyer : string;
  seller : string;
  amount : Q;
  bnbAmount : Q;
  action : Action
}.

(** Both amounts are strictly positive. *)
Definition positiveAmounts (trade : Trade) : Prop :=
  (0 < amount trade)%Q /\ (0 < bnbAmount trade)%Q.

(** [tradeBuffer.unshift(trade); if (tradeBuffer.length > 30) tradeBuffer =
    tradeBuffer.slice(0, 30)] *)
Definition unshiftTrade (trade : Trade) (tradeBuffer : list Trade) : list Trade :=
  let tradeBuffer := trade :: tradeBuffer in
  if (30 <? length tradeBuffer)%nat then slice0 30 tradeBuffer else tradeBuffer.

(** The callback that [attachSwapListener] registers, up to the call of
    [emitNewTrade]: [None] is one of its two early [return]s.  [txHash] is
    [event?.log?.transactionHash], [now] is [new Date().toISOString()]. *)
Definition swapTrade (e : SwapArgs) (txHash : option string) (now : string) : option Trade :=
  let classified :=
    if (0 <? amount1Out e)%N then Some (amount1Out e, amount0In e, buy)
    else if (0 <? amount1In e)%N then Some (amount1In e, amount0Out e, sell)
    else None in
  match classified with
  | None => None
  | Some (ocicatRaw, bnbRaw, action) =>
      let ocicatAmount := parseFloat (formatUnits ocicatRaw 6) in
      let bnbAmount := parseFloat (formatUnits bnbRaw 18) in
      if isZero ocicatAmount || isZero bnbAmount then None
      else Some {| hash := default "unknown"%string txHash;
                   time := now;
                   buyer := sender e;
                   seller := to e;
                   amount := ocicatAmount;
                   bnbAmount := bnbAmount;
                   action := action |}
  end.

(** The callback of [sortedLogs.slice(0, 30).map]; [now] is the clock
    reading of this call. *)
Definition initialTrade (now : string) (log : Log) : Trade :=
  let amountOutBN := amount1Out (decoded log) in
  let amountInBN := amount0In (decoded log) in
  {| hash := transactionHash log;
     time := now;
     buyer := sender (decoded log);
     seller := to (decoded log);
     amount := parseFloat (formatUnits amountOutBN 6);
     bnbAmount := parseFloat (formatUnits amountInBN 18);
     action := if (0 <? amountOutBN)%N then buy else sell |}.

(** [fetchInitialTrades], as a function of the buffer.  [clock i] is the
    clock reading in the [i]-th call of the [map] callback.  ([swapEvent]
    is looked up in the constant [pairABI] and is always found.) *)
Definition fetchInitialTrades (rpc : Rpc) (clock : nat -> string)
    (tradeBuffer : list Trade) : list Trade :=
  tryCatch
    (currentBlock ← await (getBlockNumber rpc);
     let fromBlock := currentBlock - 500 in
     logs ← await (getLogs rpc fromBlock currentBlock);
     let sortedLogs := sortLogs logs in
     Normal (imap (fun i log => initialTrade (clock i) log) (slice0 30 sortedLogs)))
    tradeBuffer.

End Swap.

(** ** First version of [src/server.ts] *)
Module Debounce.
Export Swap.

(** What goes over a socket: both kinds travel under the event name
    ["trades"]. *)
Inductive Packet :=
  | trades_one (trade : Trade)                (* [emit("trades", trade)] *)
  | trades_all (tradeBuffer : list Trade).    (* [emit("trades", tradeBuffer)] *)

Record Server := {
  tradeBuffer : list Trade;
  clientLastRequest : gmap string Z;
  sockets : list nat;             (* the sockets [io] is connected to *)
  awaiting : list nat;            (* sockets whose connection handler waits in
                                     [await fetchInitialTrades()] *)
  wire : list (nat * Packet)      (* every packet written, oldest first, with
                                     the socket it was written to *)
}.

Definition initial : Server :=
  {| tradeBuffer := []; clientLastRequest := ∅; sockets := []; awaiting := []; wire := [] |}.

Definition set_tradeBuffer (b : list Trade) (s : Server) : Server :=
  {| tradeBuffer := b; clientLastRequest := clientLastRequest s;
     sockets := sockets s; awaiting := awaiting s; wire := wire s |}.

Definition set_clientLastRequest (m : gmap string Z) (s : Server) : Server :=
  {| tradeBuffer := tradeBuffer s; clientLastRequest := m;
     sockets := sockets s; awaiting := awaiting s; wire := wire s |}.

Definition set_sockets (l : list nat) (s : Server) : Server :=
  {| tradeBuffer := tradeBuffer s; clientLastRequest := clientLastRequest s;
     sockets := l; awaiting := awaiting s; wire := wire s |}.

Definition set_awaiting (l : list nat) (s : Server) : Server :=
  {| tradeBuffer := tradeBuffer s; clientLastRequest := clientLastRequest s;
     sockets := sockets s; awaiting := l; wire := wire s |}.

Definition set_wire (w : list (nat * Packet)) (s : Server) : Server :=
  {| tradeBuffer := tradeBuffer s; clientLastRequest := clientLastRequest s;
     sockets := sockets s; awaiting := awaiting s; wire := w |}.

(** [io.emit(...)]: one copy to every connected socket. *)
Definition ioEmit (p : Packet) (s : Server) : Server :=
  set_wire (wire s ++ map (fun k => (k, p)) (sockets s)) s.

(** [socket.emit(...)]: a socket that is no longer connected gets nothing. *)
Definition socketEmit (socket : nat) (p : Packet) (s : Server) : Server :=
  if bool_decide (socket ∈ sockets s) then set_wire (wire s ++ [(socket, p)]) s else s.

(** [socket.disconnect(true)], and the transport closing. *)
Definition disconnect (socket : nat) (s : Server) : Server :=
  set_sockets (filter (fun k => k <> socket) (sockets s)) s.

Definition emitNewTrade (trade : Trade) (s : Server) : Server :=
  ioEmit (trades_one trade) (set_tradeBuffer (unshiftTrade trade (tradeBuffer s)) s).

(** The [Swap] callback. *)
Definition onSwap (e : SwapArgs) (txHash : option string) (now : string) (s : Server) : Server :=
  match swapTrade e txHash now with
  | Some trade => emitNewTrade trade s
  | None => s
  end.

(** The connection handler up to its [await]; socket.io has added the
    socket to the connected ones before it calls the handler.  [ip] is
    [socket.handshake.address], [now] is [Date.now()]. *)
Definition onConnection (socket : nat) (ip : string) (now : Z) (s : Server) : Server :=
  let s := set_sockets (socket :: sockets s) s in
  if now - default 0 (clientLastRequest s !! ip) <? 5000 then disconnect socket s
  else
    let s := set_clientLastRequest (<[ip := now]> (clientLastRequest s)) s in
    if (length (tradeBuffer s) =? 0)%nat
    then set_awaiting (socket :: awaiting s) s
    else socketEmit socket (trades_all (tradeBuffer s)) s.

(** The rest of the connection handler: [fetchInitialTrades()] has settled
    with what the node answered, then [socket.emit("trades", tradeBuffer)]. *)
Definition onFetched (socket : nat) (rpc : Rpc) (clock : nat -> string) (s : Server) : Server :=
  if bool_decide (socket ∈ awaiting s) then
    let s := set_awaiting (filter (fun k => k <> socket) (awaiting s)) s in
    let s := set_tradeBuffer (fetchInitialTrades rpc clock (tradeBuffer s)) s in
    socketEmit socket (trades_all (tradeBuffer s)) s
  else s.

Inductive Event :=
  | Connection (socket : nat) (ip : string) (now : Z)
  | Fetched (socket : nat) (rpc : Rpc) (clock : nat -> string)
  | SwapEvent (e : SwapArgs) (txHash : option string) (now : string)
  | Disconnect (socket : nat).

Definition step (s : Server) (ev : Event) : Server :=
  match ev with
  | Connection socket ip now => onConnection socket ip now s
  | Fetched socket rpc clock => onFetched socket rpc clock s
  | SwapEvent e txHash now => onSwap e txHash now s
  | Disconnect socket => disconnect socket s
  end.

Definition run (evs : list Event) (s : Server) : Server := foldl step s evs.

(** The packets a socket has been sent, oldest first. *)
Definition inbox (socket : nat) (s : Server) : list Packet :=
  omap (fun kp => if bool_decide (kp.1 = socket) then Some kp.2 else None) (wire s).

(** Whether the socket is (still) connected. *)
Definition connected (socket : nat) (s : Server) : bool :=
  bool_decide (socket ∈ sockets s).

(** The attaches made while [evs] are handled from [s], oldest first:
    origin, time, and whether the socket was still connected when the
    connection handler returned. *)
Fixpoint attaches (evs : list Event) (s : Server) : list (string * Z * bool) :=
  match evs with
  | [] => []
  | ev :: evs' =>
      let s' := step s ev in
      match ev with
      | Connection socket ip now => (ip, now, connected socket s') :: attaches evs' s'
      | _ => attaches evs' s'
      end
  end.

(** The time of the latest accepted attach from [ip] in such a record. *)
Definition lastAccepted (ip : string) (log : list (string * Z * bool)) : option Z :=
  last (omap (fun a => if a.2 && bool_decide (a.1.1 = ip) then Some a.1.2 else None) log).

(** A per-trade message, as opposed to a snapshot of the history. *)
Definition isLive (p : Packet) : Prop :=
  match p with
  | trades_one _ => True
  | trades_all _ => False
  end.

(** No event of [evs] is the connection of [socket]: socket.io gives every
    connection a socket of its own. *)
Definition noConnectionOf (socket : nat) (evs : list Event) : Prop :=
  Forall (fun ev => match ev with Connection k _ _ => k <> socket | _ => True end) evs.

(** No event of [evs] is the settling of the backfill that the connection
    handler of [socket] waits for. *)
Definition noFetchedOf (socket : nat) (evs : list Event) : Prop :=
  Forall (fun ev => match ev with Fetched k _ _ => k <> socket | _ => True end) evs.

End Debounce.

(** ** The external transaction stream

    One [transactions:new] notification; any field may be missing. *)
Module Tx.

Record TokenDetails := {
  ticker : option string;
  image : option string
}.

Record t := {
  hash : option string;
  wallet : option string;
  amountInToken : option Q;
  amountInChainCurrency : option Q;
  type : option string;
  tokenDetails : option TokenDetails
}.

End Tx.

(** ** Second version of [src/server.ts] *)
Module Persist.

Record Trade := {
  hash : string;
  time : string;
  buyer : option string;
  seller : option string;
  amount : Q;
  bnbAmount : Q;
  action : string;
  source : string;
  ticker : option string;
  image : option string
}.

Definition positiveAmounts (trade : Trade) : Prop :=
  (0 < amount trade)%Q /\ (0 < bnbAmount trade)%Q.

Inductive Packet :=
  | transaction_history (tradeBuffer : list Trade)   (* [emit("transaction:history", tradeBuffer)] *)
  | transaction_new (trade : Trade)                  (* [emit("transaction:new", trade)] *)
  | trades (trade : Trade).                          (* [emit("trades", trade)] *)

Record Server := {
  tradeBuffer : list Trade;
  file : option (list Trade);     (* [trades.json], when it exists *)
  sockets : list nat;
  wire : list (nat * Packet)
}.

Definition loadTradesFromFile (file : option (list Trade)) : list Trade :=
  default [] file.

(** The state when the module has been loaded: [let tradeBuffer =
    loadTradesFromFile()]. *)
Definition initial (file : option (list Trade)) : Server :=
  {| tradeBuffer := loadTradesFromFile file; file := file; sockets := []; wire := [] |}.

Definition set_tradeBuffer (b : list Trade) (s : Server) : Server :=
  {| tradeBuffer := b; file := file s; sockets := sockets s; wire := wire s |}.

Definition set_sockets (l : list nat) (s : Server) : Server :=
  {| tradeBuffer := tradeBuffer s; file := file s; sockets := l; wire := wire s |}.

Definition set_wire (w : list (nat * Packet)) (s : Server) : Server :=
  {| tradeBuffer := tradeBuffer s; file := file s; sockets := sockets s; wire := w |}.

Definition saveTradesToFile (trades : list Trade) (s : Server) : Server :=
  {| tradeBuffer := tradeBuffer s; file := Some trades; sockets := sockets s; wire := wire s |}.

Definition ioEmit (p : Packet) (s : Server) : Server :=
  set_wire (wire s ++ map (fun k => (k, p)) (sockets s)) s.

Definition socketEmit (socket : nat) (p : Packet) (s : Server) : Server :=
  if bool_decide (socket ∈ sockets s) then set_wire (wire s ++ [(socket, p)]) s else s.

Definition disconnect (socket : nat) (s : Server) : Server :=
  set_sockets (filter (fun k => k <> socket) (sockets s)) s.

(** [tradeBuffer.unshift(trade); if (tradeBuffer.length > 100) tradeBuffer =
    tradeBuffer.slice(0, 100)] *)
Definition unshiftTrade (trade : Trade) (tradeBuffer : list Trade) : list Trade :=
  let tradeBuffer := trade :: tradeBuffer in
  if (100 <? length tradeBuffer)%nat then slice0 100 tradeBuffer else tradeBuffer.

(** The handler of [transactions:new]. *)
Definition onTransactionsNew (tx : Tx.t) (now : string) (s : Server) : Server :=
  let trade :=
    {| hash := default "unknown"%string (Tx.hash tx);
       time := now;
       buyer := Some (default "unknown"%string (Tx.wallet tx));
       seller := Some ""%string;
       amount := default 0%Q (Tx.amountInToken tx);
       bnbAmount := default 0%Q (Tx.amountInChainCurrency tx);
       action := default "buy"%string (Tx.type tx);
       source := "external";
       ticker := Some (default "Unknown"%string (Tx.tokenDetails tx ≫= Tx.ticker));
       image := Some (default "/default_token.png"%string (Tx.tokenDetails tx ≫= Tx.image)) |} in
  let s := set_tradeBuffer (unshiftTrade trade (tradeBuffer s)) s in
  let s := saveTradesToFile (tradeBuffer s) s in
  ioEmit (transaction_new trade) s.

(** The connection handler. *)
Definition onConnection (socket : nat) (s : Server) : Server :=
  let s := set_sockets (socket :: sockets s) s in
  socketEmit socket (transaction_history (tradeBuffer s)) s.

Definition emitNewTrade (trade : Trade) (s : Server) : Server :=
  let trade :=
    {| hash := hash trade; time := time trade; buyer := buyer trade; seller := seller trade;
       amount := amount trade; bnbAmount := bnbAmount trade; action := action trade;
       source := "ocicat"; ticker := Some "OCICAT"%string; image := Some "/cat_bg.jpg"%string |} in
  let s := set_tradeBuffer (unshiftTrade trade (tradeBuffer s)) s in
  let s := saveTradesToFile (tradeBuffer s) s in
  ioEmit (trades trade) s.

(** The [Swap] callback up to the call of [emitNewTrade]. *)
Definition swapTrade (e : SwapArgs) (txHash : option string) (now : string) : option Trade :=
  let classified :=
    if (0 <? amount1Out e)%N then Some (amount1Out e, amount0In e, "buy"%string)
    else if (0 <? amount1In e)%N then Some (amount1In e, amount0Out e, "sell"%string)
    else None in
  match classified with
  | None => None
  | Some (ocicatRaw, bnbRaw, action) =>
      let ocicatAmount := parseFloat (formatUnits ocicatRaw 6) in
      let bnbAmount := parseFloat (formatUnits bnbRaw 18) in
      if isZero ocicatAmount || isZero bnbAmount then None
      else Some {| hash := default "unknown"%string txHash;
                   time := now;
                   buyer := Some (sender e);
                   seller := Some (to e);
                   amount := ocicatAmount;
                   bnbAmount := bnbAmount;
                   action := action;
                   source := "ocicat";
                   ticker := None;
                   image := None |}
  end.

Definition onSwap (e : SwapArgs) (txHash : option string) (now : string) (s : Server) : Server :=
  match swapTrade e txHash now with
  | Some trade => emitNewTrade trade s
  | None => s
  end.

(** Reading a [const] while its own initialiser is still running: the
    binding is in its temporal dead zone and the read throws. *)
Definition readBeforeInitialization {A} (name : string) : Completion A :=
  Throw ReferenceError.

(** The callback of [sortedLogs.slice(0, 30).map], whose result initialises
    [const initialTrades].  Its [console.log] reads [initialTrades.length]
    before the [return]. *)
Definition initialTrade (now : string) (log : Log) : Completion Trade :=
  let amountOutBN := amount1Out (decoded log) in
  let amountInBN := amount0In (decoded log) in
  initialTrades ← readBeforeInitialization (A := list Trade) "initialTrades";
  let logged := length initialTrades in
  Normal
    {| hash := transactionHash log;
       time := now;
       buyer := Some (sender (decoded log));
       seller := Some (to (decoded log));
       amount := parseFloat (formatUnits amountOutBN 6);
       bnbAmount := parseFloat (formatUnits amountInBN 18);
       action := if (0 <? amountOutBN)%N then "buy" else "sell";
       source := "ocicat";
       ticker := None;
       image := None |}.

(** [array.map(f)] with a callback that may throw: the first throw ends it. *)
Fixpoint mapFrom {A B} (f : nat -> A -> Completion B) (i : nat) (l : list A) : Completion (list B) :=
  match l with
  | [] => Normal []
  | x :: l' => y ← f i x; ys ← mapFrom f (S i) l'; Normal (y :: ys)
  end.

Definition fetchInitialTrades (rpc : Rpc) (clock : nat -> string) (s : Server) : Server :=
  tryCatch
    (currentBlock ← await (getBlockNumber rpc);
     let fromBlock := currentBlock - 500 in
     logs ← await (getLogs rpc fromBlock currentBlock);
     let sortedLogs := sortLogs logs in
     initialTrades ← mapFrom (fun i log => initialTrade (clock i) log) 0 (slice0 30 sortedLogs);
     let s := set_tradeBuffer (slice0 100 (initialTrades ++ tradeBuffer s)) s in
     Normal (saveTradesToFile (tradeBuffer s) s))
    s.

Inductive Event :=
  | Connection (socket : nat) (ip : string) (now : Z)
  | Fetched (rpc : Rpc) (clock : nat -> string)
  | Transaction (tx : Tx.t) (now : string)
  | SwapEvent (e : SwapArgs) (txHash : option string) (now : string)
  | Disconnect (socket : nat).

Definition step (s : Server) (ev : Event) : Server :=
  match ev with
  | Connection socket _ _ => onConnection socket s
  | Fetched rpc clock => fetchInitialTrades rpc clock s
  | Transaction tx now => onTransactionsNew tx now s
  | SwapEvent e txHash now => onSwap e txHash now s
  | Disconnect socket => disconnect socket s
  end.

Definition run (evs : list Event) (s : Server) : Server := foldl step s evs.

Definition inbox (socket : nat) (s : Server) : list Packet :=
  omap (fun kp => if bool_decide (kp.1 = socket) then Some kp.2 else None) (wire s).

Definition connected (socket : nat) (s : Server) : bool :=
  bool_decide (socket ∈ sockets s).

Definition isLive (p : Packet) : Prop :=
  match p with
  | transaction_history _ => False
  | _ => True
  end.

Definition noConnectionOf (socket : nat) (evs : list Event) : Prop :=
  Forall (fun ev => match ev with Connection k _ _ => k <> socket | _ => True end) evs.

End Persist.

(** ** [unnamed/part_000]

    [clientLastRequest] is declared there but never read or written, so it
    is no part of the state. *)
Module Store.
Export Swap.

Inductive Packet :=
  | transaction_history (transactionStore : list Tx.t)   (* [emit("transaction:history", transactionStore)] *)
  | transaction_new (tx : Tx.t)                          (* [emit("transaction:new", tx)] *)
  | trades (trade : Trade).                              (* [emit("trades", trade)] *)

Record Server := {
  transactionStore : list Tx.t;
  tradeBuffer : list Trade;
  sockets : list nat;
  wire : list (nat * Packet)
}.

(** [transactionStore] is imported from [store/transactions.js], which is
    not among the sources; what that module exports is the parameter. *)
Definition initial (transactionStore : list Tx.t) : Server :=
  {| transactionStore := transactionStore; tradeBuffer := []; sockets := []; wire := [] |}.

Definition set_transactionStore (l : list Tx.t) (s : Server) : Server :=
  {| transactionStore := l; tradeBuffer := tradeBuffer s; sockets := sockets s; wire := wire s |}.

Definition set_tradeBuffer (b : list Trade) (s : Server) : Server :=
  {| transactionStore := transactionStore s; tradeBuffer := b; sockets := sockets s; wire := wire s |}.

Definition set_sockets (l : list nat) (s : Server) : Server :=
  {| transactionStore := transactionStore s; tradeBuffer := tradeBuffer s; sockets := l; wire := wire s |}.

Definition set_wire (w : list (nat * Packet)) (s : Server) : Server :=
  {| transactionStore := transactionStore s; tradeBuffer := tradeBuffer s; sockets := sockets s; wire := w |}.

Definition ioEmit (p : Packet) (s : Server) : Server :=
  set_wire (wire s ++ map (fun k => (k, p)) (sockets s)) s.

Definition socketEmit (socket : nat) (p : Packet) (s : Server) : Server :=
  if bool_decide (socket ∈ sockets s) then set_wire (wire s ++ [(socket, p)]) s else s.

Definition disconnect (socket : nat) (s : Server) : Server :=
  set_sockets (filter (fun k => k <> socket) (sockets s)) s.

(** The handler of [transactions:new]; [splice(100)] cuts the array off at
    index 100. *)
Definition onTransactionsNew (tx : Tx.t) (s : Server) : Server :=
  let store := tx :: transactionStore s in
  let store := if (100 <? length store)%nat then take 100 store else store in
  ioEmit (transaction_new tx) (set_transactionStore store s).

Definition onConnection (socket : nat) (s : Server) : Server :=
  let s := set_sockets (socket :: sockets s) s in
  socketEmit socket (transaction_history (transactionStore s)) s.

Definition emitNewTrade (trade : Trade) (s : Server) : Server :=
  ioEmit (trades trade) (set_tradeBuffer (unshiftTrade trade (tradeBuffer s)) s).

Definition onSwap (e : SwapArgs) (txHash : option string) (now : string) (s : Server) : Server :=
  match swapTrade e txHash now with
  | Some trade => emitNewTrade trade s
  | None => s
  end.

Inductive Event :=
  | Connection (socket : nat) (ip : string) (now : Z)
  | Fetched (rpc : Rpc) (clock : nat -> string)
  | Transaction (tx : Tx.t)
  | SwapEvent (e : SwapArgs) (txHash : option string) (now : string)
  | Disconnect (socket : nat).

Definition step (s : Server) (ev : Event) : Server :=
  match ev with
  | Connection socket _ _ => onConnection socket s
  | Fetched rpc clock => set_tradeBuffer (fetchInitialTrades rpc clock (tradeBuffer s)) s
  | Transaction tx => onTransactionsNew tx s
  | SwapEvent e txHash now => onSwap e txHash now s
  | Disconnect socket => disconnect socket s
  end.

Definition run (evs : list Event) (s : Server) : Server := foldl step s evs.

Definition inbox (socket : nat) (s : Server) : list Packet :=
  omap (fun kp => if bool_decide (kp.1 = socket) then Some kp.2 else None) (wire s).

Definition connected (socket : nat) (s : Server) : bool :=
  bool_decide (socket ∈ sockets s).

End Store.

(** ** The reconnect logic

    The same text closes all three versions: the module constructs a
    provider and a contract, attaches the [Swap] listener, and registers a
    [close] handler on [provider.websocket].  Connections are numbered in
    the order of their construction. *)
Module Reconnect.

Record Net := {
  provider : nat;              (* the connection [provider] refers to *)
  constructed : nat;           (* how many connections were constructed *)
  swapListeners : list nat;    (* connections whose contract has the [Swap] listener *)
  closeHandlers : list nat;    (* connections whose websocket has a [close] handler *)
  timers : list Z              (* delays of the pending [setTimeout] callbacks *)
}.

(** After the module has been loaded. *)
Definition initial : Net :=
  {| provider := 0; constructed := 1; swapListeners := [0%nat]; closeHandlers := [0%nat];
     timers := [] |}.

(** The [close] handler: [setTimeout(..., 3000)]. *)
Definition closeHandler (net : Net) : Net :=
  {| provider := provider net; constructed := constructed net;
     swapListeners := swapListeners net; closeHandlers := closeHandlers net;
     timers := timers net ++ [3000] |}.

(** The websocket of connection [c] emits [close]: every handler registered
    on it runs. *)
Definition onClose (c : nat) (net : Net) : Net :=
  foldr (fun h net => if bool_decide (h = c) then closeHandler net else net) net (closeHandlers net).

(** The callback given to [setTimeout]: a new provider, a new contract on
    it, and [attachSwapListener(contract)]. *)
Definition reconnect (net : Net) : Net :=
  let fresh := constructed net in
  {| provider := fresh; constructed := S fresh;
     swapListeners := fresh :: swapListeners net; closeHandlers := closeHandlers net;
     timers := timers net |}.

(** The oldest pending timer expires. *)
Definition onTimeout (net : Net) : Net :=
  match timers net with
  | [] => net
  | _ :: rest =>
      reconnect {| provider := provider net; constructed := constructed net;
                   swapListeners := swapListeners net; closeHandlers := closeHandlers net;
                   timers := rest |}
  end.

Inductive Event :=
  | Close (c : nat)
  | Timeout.

Definition step (net : Net) (ev : Event) : Net :=
  match ev with
  | Close c => onClose c net
  | Timeout => onTimeout net
  end.

Definition run (evs : list Event) (net : Net) : Net := foldl step net evs.

End Reconnect.

(** ** Sample inputs *)

(** A buy of 5000000 units (5 tokens) for 2 * 10^18 wei (2 BNB). *)
Definition aBuy : SwapArgs :=
  {| sender := "0xrouter"; amount0In := 2000000000000000000; amount1In := 0;
     amount0Out := 0; amount1Out := 5000000; to := "0xalice" |}.

(** A sell of 3000000 units (3 tokens) for 10^18 wei (1 BNB). *)
Definition aSell : SwapArgs :=
  {| sender := "0xrouter"; amount0In := 0; amount1In := 3000000;
     amount0Out := 1000000000000000000; amount1Out := 0; to := "0xbob" |}.

(** Tokens leave the pair and nothing is paid in on leg A. *)
Definition unpaidBuy : SwapArgs :=
  {| sender := "0xrouter"; amount0In := 0; amount1In := 0;
     amount0Out := 0; amount1Out := 5000000; to := "0xalice" |}.


(** An external transaction that carries no amounts. *)
Definition bareTx : Tx.t :=
  {| Tx.hash := Some "0xfeed"%string; Tx.wallet := Some "0xcarol"%string;
     Tx.amountInToken := None; Tx.amountInChainCurrency := None;
     Tx.type := Some "buy"%string; Tx.tokenDetails := None |}.

Definition sellLog : Log :=
  {| blockNumber := 900; transactionIndex := 3; transactionHash := "0xsell"; decoded := aSell |}.

Definition buyLog : Log :=
  {| blockNumber := 950; transactionIndex := 1; transactionHash := "0xbuy"; decoded := aBuy |}.

(** A node at block 1000 that knows one sell in block 900. *)
Definition nodeWithSell : Rpc :=
  {| currentBlockNumber := Some 1000; pairLogs := Some [sellLog] |}.

(** A node at block 1000 that knows one buy in block 950. *)
Definition nodeWithBuy : Rpc :=
  {| currentBlockNumber := Some 1000; pairLogs := Some [buyLog] |}.

(** A node at block 1000 with no swap of the pair in reach. *)
Definition quietNode : Rpc :=
  {| currentBlockNumber := Some 1000; pairLogs := Some [] |}.

Definition atT (i : nat) : string := "t".

(** The trade that the live callback makes of [aBuy]. *)
Definition liveBuy : Swap.Trade :=
  {| Swap.hash := "0xbuy"; Swap.time := "t"; Swap.buyer := "0xrouter"; Swap.seller := "0xalice";
     Swap.amount := formatUnits 5000000 6; Swap.bnbAmount := formatUnits 2000000000000000000 18;
     Swap.action := Swap.buy |}.

(** The server of the first version after it has published the buy [aBuy]. *)
Definition historyOfOne : Debounce.Server :=
  Debounce.onSwap aBuy (Some "0xbuy"%string) "t" Debounce.initial.

(** A subscriber attaches to the first version while the history is empty,
    a buy is published, and then the subscriber's backfill returns. *)
Definition attachDuringBackfill : list Debounce.Event :=
  [Debounce.Connection 1 "10.0.0.1" 1700000000000;
   Debounce.SwapEvent aBuy (Some "0xbuy"%string) "t";
   Debounce.Fetched 1 quietNode atT].

(** Two attaches from one address, one millisecond apart. *)
Definition twoAttaches : list Store.Event :=
  [Store.Connection 1 "10.0.0.1" 1700000000000;
   Store.Connection 2 "10.0.0.1" 1700000000001].


(** ** The HTTP routes *)

(** [routes/tradesRoute.ts]: [GET /:curveAddress]. *)
Module Curve.

(** The arguments of an event of the bonding curve.  The query asks for the
    topics [Bought] and [Sold] only, and the handler treats every log whose
    first topic is not [Bought]'s as a [Sold]. *)
Inductive Args :=
  | Bought (buyer : string) (ethIn tokensOut : N)
  | Sold (seller : string) (tokensIn ethOut : N).

(** A log together with the arguments found in it. *)
Record Log := {
  transactionHash : string;
  args : Args
}.

(** A log as the node returns it.  [iface.decodeEventLog], called with the
    event that the first topic names, finds the arguments in it or throws:
    the address is the caller's, and a contract there may emit logs under
    these topics that do not have the layout of [curveABI]. *)
Record Returned := {
  hashOf : string;
  decodeEventLog : option Args
}.

(** A returned log in which [decodeEventLog] finds [args log]. *)
Definition returned (log : Log) : Returned :=
  {| hashOf := transactionHash log; decodeEventLog := Some (args log) |}.

(** The test-net node the route asks: both calls resolve or reject;
    [getLogs] is given the address and the block range. *)
Record Node := {
  getBlockNumber : option Z;
  getLogs : string -> Z -> Z -> option (list Returned)
}.

Inductive Body :=
  | error (message : string)
  | trades (list : list Swap.Trade).

Record Response := {
  status : Z;
  json : Body
}.

(** The trade that the callback of [logs.map] makes of the decoded log. *)
Definition trade (curveAddress : string) (now : string) (log : Log) : Swap.Trade :=
  match args log with
  | Bought buyer ethIn tokensOut =>
      {| Swap.hash := transactionHash log; Swap.time := now;
         Swap.buyer := buyer; Swap.seller := curveAddress;
         Swap.amount := parseFloat (formatUnits tokensOut 18);
         Swap.bnbAmount := parseFloat (formatUnits ethIn 18);
         Swap.action := Swap.buy |}
  | Sold seller tokensIn ethOut =>
      {| Swap.hash := transactionHash log; Swap.time := now;
         Swap.buyer := curveAddress; Swap.seller := seller;
         Swap.amount := parseFloat (formatUnits tokensIn 18);
         Swap.bnbAmount := parseFloat (formatUnits ethOut 18);
         Swap.action := Swap.sell |}
  end.

(** The callback of [logs.map]: decode, then build the trade. *)
Definition callback (curveAddress : string) (now : string) (r : Returned) :
    Completion Swap.Trade :=
  match decodeEventLog r with
  | Some decoded =>
      Normal (trade curveAddress now {| transactionHash := hashOf r; args := decoded |})
  | None => Throw DecodeError
  end.

(** The handler.  [isAddress] is [ethers.isAddress]; [clock i] is the clock
    reading in the [i]-th call of the [map] callback.  Everything from the
    first [await] to the end of [logs.map] is inside the [try].  (Both
    events are in the constant [curveABI], so the "Event not found" answer
    never occurs.) *)
Definition get (isAddress : string -> bool) (node : Node) (clock : nat -> string)
    (curveAddress : string) : Response :=
  if negb (isAddress curveAddress)
  then {| status := 400; json := error "Invalid curve address" |}
  else
    match
      (currentBlock ← await (getBlockNumber node);
       let fromBlock := currentBlock - 500 in
       logs ← await (getLogs node curveAddress fromBlock currentBlock);
       Persist.mapFrom (fun i r => callback curveAddress (clock i) r) 0 logs)
    with
    | Normal trades' => {| status := 200; json := trades trades' |}
    | Throw _ => {| status := 500; json := error "Failed to fetch trades" |}
    end.

End Curve.

(** [routes/transactions.ts]: [GET /] answers 200 with the transaction
    store of [Store]. *)
Module Transactions.

Definition get (s : Store.Server) : Z * list Tx.t := (200, Store.transactionStore s).

End Transactions.

(** ** What a run inserts and publishes *)

(** The trade that handling [ev] puts into the buffer of [Debounce]. *)
Definition Debounce_inserted (ev : Debounce.Event) : option Swap.Trade :=
  match ev with
  | Debounce.SwapEvent e txHash now => Swap.swapTrade e txHash now
  | _ => None
  end.

(** No backfill settles during [evs]. *)
Definition Debounce_noBackfill (evs : list Debounce.Event) : Prop :=
  Forall (fun ev => match ev with Debounce.Fetched _ _ _ => False | _ => True end) evs.

(** No subscriber comes or goes during [evs]; backfills may settle. *)
Definition Debounce_subscribersStay (evs : list Debounce.Event) : Prop :=
  Forall (fun ev => match ev with
                    | Debounce.Connection _ _ _ | Debounce.Disconnect _ => False
                    | _ => True
                    end) evs.

(** The trade the [transactions:new] handler of [Persist] builds. *)
Definition Persist_externalTrade (tx : Tx.t) (now : string) : Persist.Trade :=
  {| Persist.hash := default "unknown"%string (Tx.hash tx);
     Persist.time := now;
     Persist.buyer := Some (default "unknown"%string (Tx.wallet tx));
     Persist.seller := Some ""%string;
     Persist.amount := default 0%Q (Tx.amountInToken tx);
     Persist.bnbAmount := default 0%Q (Tx.amountInChainCurrency tx);
     Persist.action := default "buy"%string (Tx.type tx);
     Persist.source := "external";
     Persist.ticker := Some (default "Unknown"%string (Tx.tokenDetails tx ≫= Tx.ticker));
     Persist.image := Some (default "/default_token.png"%string (Tx.tokenDetails tx ≫= Tx.image)) |}.

(** The trade as [emitNewTrade] of [Persist] stores it. *)
Definition Persist_tagged (trade : Persist.Trade) : Persist.Trade :=
  {| Persist.hash := Persist.hash trade; Persist.time := Persist.time trade;
     Persist.buyer := Persist.buyer trade; Persist.seller := Persist.seller trade;
     Persist.amount := Persist.amount trade; Persist.bnbAmount := Persist.bnbAmount trade;
     Persist.action := Persist.action trade;
     Persist.source := "ocicat"; Persist.ticker := Some "OCICAT"%string;
     Persist.image := Some "/cat_bg.jpg"%string |}.

(** The packet that handling [ev] sends to every subscriber of [Persist]. *)
Definition Persist_published (ev : Persist.Event) : option Persist.Packet :=
  match ev with
  | Persist.Transaction tx now => Some (Persist.transaction_new (Persist_externalTrade tx now))
  | Persist.SwapEvent e txHash now =>
      (fun trade => Persist.trades (Persist_tagged trade)) <$> Persist.swapTrade e txHash now
  | _ => None
  end.

(** The trade inside a per-trade packet. *)
Definition Persist_payload (p : Persist.Packet) : option Persist.Trade :=
  match p with
  | Persist.transaction_new trade => Some trade
  | Persist.trades trade => Some trade
  | Persist.transaction_history _ => None
  end.

(** The trade that handling [ev] puts into the buffer of [Persist]. *)
Definition Persist_inserted (ev : Persist.Event) : option Persist.Trade :=
  Persist_published ev ≫= Persist_payload.

(** No subscriber comes or goes during [evs]. *)
Definition Persist_subscribersStay (evs : list Persist.Event) : Prop :=
  Forall (fun ev => match ev with
                    | Persist.Connection _ _ _ | Persist.Disconnect _ => False
                    | _ => True
                    end) evs.

(** The transaction that handling [ev] puts into the store of [Store]. *)
Definition Store_received (ev : Store.Event) : option Tx.t :=
  match ev with
  | Store.Transaction tx => Some tx
  | _ => None
  end.

(** Is [ev] an attach from [ip]? *)
Definition Debounce_fromOrigin (ip : string) (ev : Debounce.Event) : bool :=
  match ev with
  | Debounce.Connection _ ip' _ => bool_decide (ip' = ip)
  | _ => false
  end.

(** A trade of the first version written in the record of the second, as
    its [Swap] callback builds it. *)
Definition Persist_ofSwap (trade : Swap.Trade) : Persist.Trade :=
  {| Persist.hash := Swap.hash trade; Persist.time := Swap.time trade;
     Persist.buyer := Some (Swap.buyer trade); Persist.seller := Some (Swap.seller trade);
     Persist.amount := Swap.amount trade; Persist.bnbAmount := Swap.bnbAmount trade;
     Persist.action := match Swap.action trade with Swap.buy => "buy" | Swap.sell => "sell" end;
     Persist.source := "ocicat"; Persist.ticker := None; Persist.image := None |}.

(** Block height and transaction index, the two things [compareLogs] looks
    at. *)
Definition sameKey (a b : Log) : bool :=
  (blockNumber a =? blockNumber b) && (transactionIndex a =? transactionIndex b).

(** How often the first connection closes in [evs]. *)
Definition Reconnect_firstCloses (evs : list Reconnect.Event) : nat :=
  length (omap (fun ev => match ev with Reconnect.Close O => Some ev | _ => None end) evs).


(** What the event name of a per-trade packet of [Persist] says about the
    trade inside. *)
Definition Persist_wellTagged (p : Persist.Packet) : Prop :=
  match p with
  | Persist.trades trade =>
      Persist.source trade = "ocicat"%string /\
      Persist.ticker trade = Some "OCICAT"%string /\
      Persist.image trade = Some "/cat_bg.jpg"%string
  | Persist.transaction_new trade =>
      Persist.source trade = "external"%string /\ Persist.seller trade = Some ""%string
  | Persist.transaction_history _ => True
  end.

(** In a trade of the curve route the curve is the seller of a buy and the
    buyer of a sell. *)
Definition Curve_counterparty (curveAddress : string) (trade : Swap.Trade) : Prop :=
  match Swap.action trade with
  | Swap.buy => Swap.seller trade = curveAddress
  | Swap.sell => Swap.buyer trade = curveAddress
  end.

(** A stand-in for [ethers.isAddress]: 42 characters. *)
Definition has42Characters (a : string) : bool := (String.length a =? 42)%nat.

Definition curve : string := "0x1df65d3a75aecd000a9c17c97e99993af01dbcd1".

(** A node at block 1000 that lists, for any address, a purchase of nothing
    and a sale. *)
Definition curveNode : Curve.Node :=
  {| Curve.getBlockNumber := Some 1000;
     Curve.getLogs := fun _ _ _ =>
       Some [ Curve.returned
                {| Curve.transactionHash := "0xb"; Curve.args := Curve.Bought "0xalice" 0 0 |};
              Curve.returned
                {| Curve.transactionHash := "0xs";
                   Curve.args := Curve.Sold "0xbob" 3000000 1000000 |} ] |}.

(** A node at block 1000 that lists a log in which the arguments of its
    event are not found. *)
Definition strangeNode : Curve.Node :=
  {| Curve.getBlockNumber := Some 1000;
     Curve.getLogs := fun _ _ _ =>
       Some [ {| Curve.hashOf := "0xodd"; Curve.decodeEventLog := None |} ] |}.

(** A node that answers neither call. *)
Definition deadNode : Rpc := {| currentBlockNumber := None; pairLogs := None |}.

(** A subscriber attaches to the first version while the history is empty,
    a buy is published, and then the subscriber's backfill fails. *)
Definition attachDuringFailedBackfill : list Debounce.Event :=
  [Debounce.Connection 1 "10.0.0.1" 1700000000000;
   Debounce.SwapEvent aBuy (Some "0xbuy"%string) "t";
   Debounce.Fetched 1 deadNode atT].


(** * Properties *)

(** ** Numbers *)

Lemma floorLog2_le (n d : positive) : floorLog2 n d <= Z.log2 (Zpos n) - Z.log2 (Zpos d).
Proof. unfold floorLog2. destruct (_ <=? _); lia. Qed.

Lemma pow2_pos (x : Z) : 0 <= x -> 0 < 2 ^ x.
Proof. intros. apply Z.pow_pos_nonneg; lia. Qed.

Lemma significand_ge (n d : positive) :
  Zpos d <= 2 ^ 1074 ->
  let e := (significand n d).2 in
  Zpos d * 2 ^ Z.max e 0 <= Zpos n * 2 ^ Z.max (- e) 0.
Proof.
  intros Hd. unfold significand. cbn [snd].
  pose proof (floorLog2_le n d) as Hk.
  pose proof (Z.log2_spec (Zpos n) eq_refl) as [Hn1 Hn2].
  pose proof (Z.log2_spec (Zpos d) eq_refl) as [Hd1 Hd2].
  pose proof (Z.log2_nonneg (Zpos n)) as Ha.
  pose proof (Z.log2_nonneg (Zpos d)) as Hb.
  set (a := Z.log2 (Zpos n)) in *. set (b := Z.log2 (Zpos d)) in *.
  set (e := Z.max (floorLog2 n d - 52) (-1074)).
  destruct (Z.le_gt_cases 0 e) as [He | He].
  - rewrite (Z.max_l e 0), (Z.max_r (- e) 0) by lia. rewrite Z.pow_0_r, Z.mul_1_r.
    assert (e <= a - b - 52) by lia.
    assert (Zpos d * 2 ^ e <= 2 ^ (Z.succ b) * 2 ^ e) as H1.
    { apply Z.mul_le_mono_nonneg_r; [pose proof (pow2_pos e He); lia | lia]. }
    rewrite <- Z.pow_add_r in H1 by lia.
    assert (2 ^ (Z.succ b + e) <= 2 ^ a) by (apply Z.pow_le_mono_r; lia).
    lia.
  - rewrite (Z.max_r e 0), (Z.max_l (- e) 0) by lia. rewrite Z.pow_0_r, Z.mul_1_r.
    destruct (Z.eq_dec e (-1074)) as [-> | Hne].
    + assert (1 * 2 ^ 1074 <= Zpos n * 2 ^ 1074); [| simpl Z.opp; lia].
      apply Z.mul_le_mono_nonneg_r; lia.
    + assert (b + 1 <= a - e) by lia.
      assert (2 ^ a * 2 ^ (- e) <= Zpos n * 2 ^ (- e)) as H1.
      { apply Z.mul_le_mono_nonneg_r; [pose proof (pow2_pos (- e)); lia | lia]. }
      rewrite <- Z.pow_add_r in H1 by lia.
      assert (2 ^ (Z.succ b) <= 2 ^ (a + - e)) by (apply Z.pow_le_mono_r; lia).
      lia.
Qed.

Lemma significand_pos (n d : positive) :
  Zpos d <= 2 ^ 1074 -> 0 < (significand n d).1.
Proof.
  intros Hd. pose proof (significand_ge n d Hd) as Hge. cbv zeta in Hge.
  unfold significand in *. cbn [fst snd] in *.
  set (e := Z.max (floorLog2 n d - 52) (-1074)) in *.
  set (num := Zpos n * 2 ^ Z.max (- e) 0) in *.
  set (den := Zpos d * 2 ^ Z.max e 0) in *.
  assert (0 < den).
  { unfold den. pose proof (pow2_pos (Z.max e 0)). lia. }
  assert (1 <= num / den) by (apply Z.div_le_lower_bound; lia).
  destruct (_ || _); lia.
Qed.

Lemma nearestDouble_pos (n d : positive) :
  Zpos d <= 2 ^ 1074 -> (0 < nearestDouble n d)%Q.
Proof.
  intros Hd. pose proof (significand_pos n d Hd) as Hm.
  unfold nearestDouble. destruct (significand n d) as [m e]. cbn [fst] in Hm.
  destruct (_ <=? _); unfold Qlt; cbn [Qnum Qden].
  - reflexivity.
  - pose proof (pow2_pos (Z.max e 0)). nia.
Qed.

Lemma parseFloat_pos (n d : positive) :
  Zpos d <= 2 ^ 1074 -> (0 < parseFloat (Zpos n # d))%Q.
Proof.
  intros Hd. unfold parseFloat. cbn [Qnum Qden].
  destruct (Qeq_bool _ _); [reflexivity | by apply nearestDouble_pos].
Qed.

Lemma parseFloat_zero (text : Q) : Qnum text = 0 -> parseFloat text = text.
Proof.
  intros H. unfold parseFloat. rewrite H.
  assert (Qeq_bool 0 text = true) as ->; [| done].
  apply Qeq_bool_iff. unfold Qeq. rewrite H. reflexivity.
Qed.

Lemma isZero_parseFloat (v decimals : N) :
  (decimals <= 18)%N ->
  isZero (parseFloat (formatUnits v decimals)) = (v =? 0)%N.
Proof.
  intros Hdec. destruct v as [| p].
  - rewrite parseFloat_zero by reflexivity. reflexivity.
  - simpl N.eqb. unfold isZero. apply not_true_iff_false. rewrite Qeq_bool_iff.
    assert (0 < parseFloat (formatUnits (N.pos p) decimals))%Q as Hpos; [| intros E; rewrite E in Hpos; discriminate].
    unfold formatUnits. simpl Z.of_N. apply parseFloat_pos.
    assert (10 ^ Z.of_N decimals <= 10 ^ 18) by (apply Z.pow_le_mono_r; lia).
    assert (0 < 10 ^ Z.of_N decimals) by (apply Z.pow_pos_nonneg; lia).
    rewrite Z2Pos.id by lia.
    etrans; [eassumption |]. vm_compute. discriminate.
Qed.

Lemma floorLog2_spec (n d : positive) :
  let k := floorLog2 n d in
  Zpos d * 2 ^ Z.max k 0 <= Zpos n * 2 ^ Z.max (- k) 0 /\
  Zpos n * 2 ^ Z.max (- (k + 1)) 0 < Zpos d * 2 ^ Z.max (k + 1) 0.
Proof.
  cbv zeta. unfold floorLog2.
  pose proof (Z.log2_spec (Zpos n) eq_refl) as [Hn1 Hn2].
  pose proof (Z.log2_spec (Zpos d) eq_refl) as [Hd1 Hd2].
  pose proof (Z.log2_nonneg (Zpos n)) as Ha.
  pose proof (Z.log2_nonneg (Zpos d)) as Hb.
  set (a := Z.log2 (Zpos n)) in *. set (b := Z.log2 (Zpos d)) in *.
  set (c := a - b).
  assert (forall x y, 0 <= x -> 0 <= y -> 2 ^ (x + y) = 2 ^ x * 2 ^ y) as Hadd
    by (intros; by apply Z.pow_add_r).
  destruct (Z.leb_spec (Zpos d * 2 ^ Z.max c 0) (Zpos n * 2 ^ Z.max (- c) 0)) as [Hle | Hgt].
  - split; [done |].
    (* n < 2^(a+1), d >= 2^b *)
    destruct (Z.le_gt_cases 0 (c + 1)) as [Hc | Hc].
    + rewrite (Z.max_r (- (c + 1)) 0), (Z.max_l (c + 1) 0), Z.pow_0_r, Z.mul_1_r by lia.
      assert (2 ^ b * 2 ^ (c + 1) <= Zpos d * 2 ^ (c + 1))
        by (apply Z.mul_le_mono_nonneg_r; [pose proof (pow2_pos (c + 1)); lia | lia]).
      rewrite <- Hadd in * by lia. replace (b + (c + 1)) with (Z.succ a) in * by lia. lia.
    + rewrite (Z.max_l (- (c + 1)) 0), (Z.max_r (c + 1) 0), Z.pow_0_r, Z.mul_1_r by lia.
      assert (Zpos n * 2 ^ (- (c + 1)) < 2 ^ (Z.succ a) * 2 ^ (- (c + 1)))
        by (apply Z.mul_lt_mono_pos_r; [apply pow2_pos; lia | lia]).
      rewrite <- Hadd in * by lia. replace (Z.succ a + - (c + 1)) with b in * by lia. lia.
  - split.
    + destruct (Z.le_gt_cases 0 (c - 1)) as [Hc | Hc].
      * rewrite (Z.max_l (c - 1) 0), (Z.max_r (- (c - 1)) 0), Z.pow_0_r, Z.mul_1_r by lia.
        assert (Zpos d * 2 ^ (c - 1) <= 2 ^ (Z.succ b) * 2 ^ (c - 1))
          by (apply Z.mul_le_mono_nonneg_r; [pose proof (pow2_pos (c - 1)); lia | lia]).
        rewrite <- Hadd in * by lia. replace (Z.succ b + (c - 1)) with a in * by lia. lia.
      * rewrite (Z.max_r (c - 1) 0), (Z.max_l (- (c - 1)) 0), Z.pow_0_r, Z.mul_1_r by lia.
        assert (2 ^ a * 2 ^ (- (c - 1)) <= Zpos n * 2 ^ (- (c - 1)))
          by (apply Z.mul_le_mono_nonneg_r; [pose proof (pow2_pos (- (c - 1))); lia | lia]).
        rewrite <- Hadd in * by lia. replace (a + - (c - 1)) with (Z.succ b) in * by lia. lia.
    + replace (c - 1 + 1) with c by lia. lia.
Qed.

Lemma pow2_split (x y : Z) : 0 <= x -> 0 <= y -> 2 ^ (x + y) = 2 ^ x * 2 ^ y.
Proof. intros. by apply Z.pow_add_r. Qed.

Lemma below_pow2_mono (n d x y : Z) :
  0 < n -> 0 < d -> x <= y ->
  n * 2 ^ Z.max (- x) 0 < d * 2 ^ Z.max x 0 ->
  n * 2 ^ Z.max (- y) 0 < d * 2 ^ Z.max y 0.
Proof.
  intros Hn Hd Hxy.
  destruct (Z.le_gt_cases 0 x) as [Hx | Hx].
  - rewrite (Z.max_r (- x) 0), (Z.max_l x 0), (Z.max_r (- y) 0), (Z.max_l y 0) by lia.
    rewrite Z.pow_0_r, !Z.mul_1_r. intros H.
    assert (2 ^ x <= 2 ^ y) by (apply Z.pow_le_mono_r; lia). nia.
  - rewrite (Z.max_l (- x) 0), (Z.max_r x 0), Z.pow_0_r, Z.mul_1_r by lia. intros H.
    destruct (Z.le_gt_cases 0 y) as [Hy | Hy].
    + rewrite (Z.max_r (- y) 0), (Z.max_l y 0), Z.pow_0_r, Z.mul_1_r by lia.
      pose proof (pow2_pos (- x)). pose proof (pow2_pos y). nia.
    + rewrite (Z.max_l (- y) 0), (Z.max_r y 0), Z.pow_0_r, Z.mul_1_r by lia.
      assert (2 ^ (- y) <= 2 ^ (- x)) by (apply Z.pow_le_mono_r; lia). nia.
Qed.

Lemma below_pow2_scale (n d e : Z) :
  0 < n -> 0 < d ->
  n * 2 ^ Z.max (- (e + 53)) 0 < d * 2 ^ Z.max (e + 53) 0 ->
  n * 2 ^ Z.max (- e) 0 < 2 ^ 53 * (d * 2 ^ Z.max e 0).
Proof.
  intros Hn Hd.
  destruct (Z.le_gt_cases 0 e) as [He | He].
  - rewrite (Z.max_r (- (e + 53)) 0), (Z.max_l (e + 53) 0), (Z.max_r (- e) 0), (Z.max_l e 0) by lia.
    rewrite (pow2_split e 53), Z.pow_0_r by lia. lia.
  - rewrite (Z.max_l (- e) 0), (Z.max_r e 0), Z.pow_0_r, Z.mul_1_r by lia.
    destruct (Z.le_gt_cases 0 (e + 53)) as [He' | He'].
    + rewrite (Z.max_r (- (e + 53)) 0), (Z.max_l (e + 53) 0), Z.pow_0_r, Z.mul_1_r by lia.
      intros H. pose proof (pow2_pos (- e)) as Hp.
      assert (n * 2 ^ (- e) < d * 2 ^ (e + 53) * 2 ^ (- e)) as H1 by nia.
      rewrite <- Z.mul_assoc, <- pow2_split in H1 by lia.
      replace (e + 53 + - e) with 53 in H1 by lia. lia.
    + rewrite (Z.max_l (- (e + 53)) 0), (Z.max_r (e + 53) 0), Z.pow_0_r, Z.mul_1_r by lia.
      intros H. replace (- e) with (- (e + 53) + 53) by lia.
      rewrite pow2_split by lia. nia.
Qed.

Lemma above_pow2_scale (n d k : Z) :
  0 < n -> 0 < d ->
  d * 2 ^ Z.max k 0 <= n * 2 ^ Z.max (- k) 0 ->
  2 ^ 52 * (d * 2 ^ Z.max (k - 52) 0) <= n * 2 ^ Z.max (- (k - 52)) 0.
Proof.
  intros Hn Hd.
  destruct (Z.le_gt_cases 0 (k - 52)) as [He | He].
  - rewrite (Z.max_l k 0), (Z.max_r (- k) 0), (Z.max_l (k - 52) 0), (Z.max_r (- (k - 52)) 0) by lia.
    rewrite Z.pow_0_r, !Z.mul_1_r. intros H.
    replace k with (k - 52 + 52) in H at 1 by lia. rewrite pow2_split in H by lia. lia.
  - rewrite (Z.max_r (k - 52) 0), (Z.max_l (- (k - 52)) 0), Z.pow_0_r, Z.mul_1_r by lia.
    destruct (Z.le_gt_cases 0 k) as [Hk | Hk].
    + rewrite (Z.max_l k 0), (Z.max_r (- k) 0), Z.pow_0_r, Z.mul_1_r by lia.
      intros H. pose proof (pow2_pos (- (k - 52))) as Hp.
      assert (d * 2 ^ k * 2 ^ (- (k - 52)) <= n * 2 ^ (- (k - 52))) as H1 by nia.
      rewrite <- Z.mul_assoc, <- pow2_split in H1 by lia.
      replace (k + - (k - 52)) with 52 in H1 by lia. lia.
    + rewrite (Z.max_r k 0), (Z.max_l (- k) 0), Z.pow_0_r, Z.mul_1_r by lia.
      intros H. replace (- (k - 52)) with (- k + 52) by lia.
      rewrite pow2_split by lia. nia.
Qed.

(** [significand n d = (m, e)]: [m * 2^e] is a double, and no multiple of
    [2^e] is nearer to [n / d]; of two that are equally near, [m] is the
    even one. *)
Lemma significand_nearest (n d : positive) :
  let m := (significand n d).1 in
  let e := (significand n d).2 in
  let num := Zpos n * 2 ^ Z.max (- e) 0 in
  let den := Zpos d * 2 ^ Z.max e 0 in
  -1074 <= e /\ 0 <= m <= 2 ^ 53 /\ (e = -1074 \/ 2 ^ 52 <= m) /\
  2 * Z.abs (num - m * den) <= den /\
  (2 * Z.abs (num - m * den) = den -> Z.even m = true).
Proof.
  cbv zeta. unfold significand. cbn [fst snd].
  pose proof (floorLog2_spec n d) as [Hlo Hhi]. cbv zeta in Hlo, Hhi.
  set (k := floorLog2 n d) in *.
  set (e := Z.max (k - 52) (-1074)).
  set (num := Zpos n * 2 ^ Z.max (- e) 0).
  set (den := Zpos d * 2 ^ Z.max e 0).
  assert (0 < den) as Hden by (unfold den; pose proof (pow2_pos (Z.max e 0)); lia).
  assert (0 < num) as Hnum by (unfold num; pose proof (pow2_pos (Z.max (- e) 0)); lia).
  assert (num < 2 ^ 53 * den) as Hlt.
  { apply below_pow2_scale; [done | done |].
    apply (below_pow2_mono _ _ (k + 1)); [done | done | lia | done]. }
  assert (e = -1074 \/ 2 ^ 52 * den <= num) as Hge.
  { destruct (Z.eq_dec e (k - 52)) as [E | E]; [right | left; lia].
    unfold num, den. rewrite E. by apply above_pow2_scale. }
  pose proof (Z.div_mod num den ltac:(lia)) as Hdm.
  pose proof (Z.mod_pos_bound num den Hden) as Hr.
  set (q := num / den) in *. set (r := num mod den) in *.
  assert (0 <= q) by (apply Z.div_pos; lia).
  assert (q < 2 ^ 53) by (apply Z.div_lt_upper_bound; lia).
  assert (e = -1074 \/ 2 ^ 52 <= q).
  { destruct Hge as [? | Hge]; [by left | right]. apply Z.div_le_lower_bound; lia. }
  split; [lia |].
  destruct (Z.ltb_spec den (2 * r)) as [Hup | Hup]; cbn [orb].
  - split; [lia |]. split; [lia |]. split; [nia | nia].
  - destruct (Z.eqb_spec den (2 * r)) as [Htie | Htie]; cbn [andb].
    + destruct (Z.odd q) eqn:Ho.
      * split; [lia |]. split; [lia |]. split; [nia |]. intros _.
        rewrite Z.even_add, <- Z.negb_odd, Ho. reflexivity.
      * split; [lia |]. split; [lia |]. split; [nia |]. intros _.
        by rewrite <- Z.negb_odd, Ho.
    + split; [lia |]. split; [lia |]. split; [nia | nia].
Qed.

Lemma formatUnits_pos (v d : N) :
  (d <= 18)%N -> (0 < v)%N -> (0 < parseFloat (formatUnits v d))%Q.
Proof.
  intros Hd Hv. destruct v as [| p]; [lia |].
  unfold formatUnits. simpl Z.of_N. apply parseFloat_pos.
  assert (10 ^ Z.of_N d <= 10 ^ 18) by (apply Z.pow_le_mono_r; lia).
  assert (0 < 10 ^ Z.of_N d) by (apply Z.pow_pos_nonneg; lia).
  rewrite Z2Pos.id by lia.
  etrans; [eassumption |]. vm_compute. discriminate.
Qed.

(** One wei more than one BNB reads as 1; a tenth reads as the double next
    to it; ties go to the even significand; the largest [uint256] with six
    decimals is finite; and on these and on a run of small and of large
    amounts [nearestDouble] is what the library's division gives. *)
Lemma parseFloat_samples :
  (parseFloat (formatUnits (10 ^ 18 + 1) 18) == 1)%Q /\
  (parseFloat (1 # 10) == 3602879701896397 # 36028797018963968)%Q /\
  (nearestDouble (2 ^ 53 + 1) 1 == inject_Z (2 ^ 53))%Q /\
  (nearestDouble (2 ^ 53 + 3) 1 == inject_Z (2 ^ 53 + 4))%Q /\
  (parseFloat (formatUnits (2 ^ 256 - 1) 6) < inject_Z (2 ^ 1024))%Q /\
  forallb (fun nd : positive * positive => Qeq_bool (nearestDouble nd.1 nd.2) (quotientSF nd.1 nd.2))
    ([(1, 10); (2 ^ 53 + 1, 1); (2 ^ 53 + 3, 1); (2 ^ 256 - 1, 10 ^ 6); (1, 10 ^ 18);
      (1, 10 ^ 320); (1, 10 ^ 330); (2 ^ 1024 - 1, 1)]%positive ++
     map (fun n => (Pos.of_nat n, 10 ^ 18)%positive) (seq 1 50) ++
     map (fun n => (123456789123456789 + Pos.of_nat n, 1000000)%positive) (seq 1 50)) = true.
Proof. repeat split; vm_compute; reflexivity. Qed.

(** ** The decoder *)

(** The two cases in which the [Swap] callback builds a trade, and the
    three in which it returns early. *)
Lemma swapTrade_buy e txHash now :
  (0 < amount1Out e)%N -> amount0In e <> 0%N ->
  Swap.swapTrade e txHash now =
    Some {| Swap.hash := default "unknown"%string txHash; Swap.time := now;
            Swap.buyer := sender e; Swap.seller := to e;
            Swap.amount := parseFloat (formatUnits (amount1Out e) 6);
            Swap.bnbAmount := parseFloat (formatUnits (amount0In e) 18);
            Swap.action := Swap.buy |}.
Proof.
  intros Hout Hin. unfold Swap.swapTrade.
  rewrite (proj2 (N.ltb_lt _ _) Hout). cbv beta iota zeta.
  rewrite !isZero_parseFloat by lia.
  rewrite (proj2 (N.eqb_neq _ _) Hin).
  destruct (N.eqb_spec (amount1Out e) 0); [lia | reflexivity].
Qed.

Lemma swapTrade_sell e txHash now :
  amount1Out e = 0%N -> (0 < amount1In e)%N -> amount0Out e <> 0%N ->
  Swap.swapTrade e txHash now =
    Some {| Swap.hash := default "unknown"%string txHash; Swap.time := now;
            Swap.buyer := sender e; Swap.seller := to e;
            Swap.amount := parseFloat (formatUnits (amount1In e) 6);
            Swap.bnbAmount := parseFloat (formatUnits (amount0Out e) 18);
            Swap.action := Swap.sell |}.
Proof.
  intros Hout Hin Hbase. unfold Swap.swapTrade.
  rewrite Hout. cbn [N.ltb N.compare].
  rewrite (proj2 (N.ltb_lt _ _) Hin). cbv beta iota zeta.
  rewrite !isZero_parseFloat by lia.
  rewrite (proj2 (N.eqb_neq _ _) Hbase).
  destruct (N.eqb_spec (amount1In e) 0); [lia | reflexivity].
Qed.

Lemma swapTrade_none e txHash now :
  (amount1Out e = 0%N /\ amount1In e = 0%N) \/
  ((0 < amount1Out e)%N /\ amount0In e = 0%N) \/
  (amount1Out e = 0%N /\ (0 < amount1In e)%N /\ amount0Out e = 0%N) ->
  Swap.swapTrade e txHash now = None.
Proof.
  unfold Swap.swapTrade.
  intros [[-> ->] | [[Hout Hin] | (Hout & Hin & Hbase)]].
  - reflexivity.
  - rewrite (proj2 (N.ltb_lt _ _) Hout). cbv beta iota zeta.
    rewrite !isZero_parseFloat, Hin by lia. by rewrite orb_true_r.
  - rewrite Hout. cbn [N.ltb N.compare].
    rewrite (proj2 (N.ltb_lt _ _) Hin). cbv beta iota zeta.
    rewrite !isZero_parseFloat, Hbase by lia. by rewrite orb_true_r.
Qed.

(** C4 (as amended): for every raw swap event the callback that
    [attachSwapListener] registers yields a buy when [amount1Out > 0] and
    [amount0In] is not zero, its traded amount being [amount1Out] and its
    base amount [amount0In], each as the number the code makes of it: the
    double nearest to the integer divided by [10^6], respectively [10^18];
    when [amount1Out] is zero, a sell of [amount1In] against [amount0Out],
    as the same numbers, when [amount1In > 0] and [amount0Out] is not zero;
    and no trade in every other case, that is when neither leg B amount is
    positive or when the base amount of the chosen direction is zero.  The
    callback is a total function: a rejection is a plain return. *)
Theorem swapTrade_classification (e : SwapArgs) (txHash : option string) (now : string) :
  ((0 < amount1Out e)%N /\ amount0In e <> 0%N ->
     exists trade, Swap.swapTrade e txHash now = Some trade /\
       Swap.action trade = Swap.buy /\
       Swap.amount trade = parseFloat (formatUnits (amount1Out e) 6) /\
       Swap.bnbAmount trade = parseFloat (formatUnits (amount0In e) 18)) /\
  (amount1Out e = 0%N /\ (0 < amount1In e)%N /\ amount0Out e <> 0%N ->
     exists trade, Swap.swapTrade e txHash now = Some trade /\
       Swap.action trade = Swap.sell /\
       Swap.amount trade = parseFloat (formatUnits (amount1In e) 6) /\
       Swap.bnbAmount trade = parseFloat (formatUnits (amount0Out e) 18)) /\
  ((amount1Out e = 0%N /\ amount1In e = 0%N) \/
   ((0 < amount1Out e)%N /\ amount0In e = 0%N) \/
   (amount1Out e = 0%N /\ (0 < amount1In e)%N /\ amount0Out e = 0%N) ->
     Swap.swapTrade e txHash now = None).
Proof.
  split; [| split].
  - intros [Hout Hin]. eexists. split; [by apply swapTrade_buy |]. done.
  - intros (Hout & Hin & Hbase). eexists. split; [by apply swapTrade_sell |]. done.
  - apply swapTrade_none.
Qed.

(** C4, the claim as stated fails: with [amount1Out > 0] the callback does
    not always produce a buy; when nothing was paid in on leg A it returns
    early and produces no trade. *)
Lemma swapTrade_unpaid_buy_rejected :
  (0 < amount1Out unpaidBuy)%N /\ Swap.swapTrade unpaidBuy (Some "0xabc"%string) "t"%string = None.
Proof. split; [reflexivity | reflexivity]. Qed.

(** The classification at a buy. *)
Lemma swapTrade_classification_witness :
  exists trade, Swap.swapTrade aBuy None "t"%string = Some trade /\
    Swap.action trade = Swap.buy /\
    Swap.amount trade = parseFloat (formatUnits (amount1Out aBuy) 6) /\
    Swap.bnbAmount trade = parseFloat (formatUnits (amount0In aBuy) 18).
Proof.
  apply (proj1 (swapTrade_classification aBuy None "t"%string)).
  split; [reflexivity | discriminate].
Defined.

(** ** The bounded history *)

Lemma unshift_slice {A} (n : nat) (x : A) (l : list A) :
  (if (S n <? length (x :: l))%nat then slice0 (S n) (x :: l) else x :: l) = x :: take n l.
Proof.
  unfold slice0. simpl length. destruct (Nat.ltb_spec (S n) (S (length l))) as [Hlt | Hge].
  - reflexivity.
  - rewrite take_ge; [reflexivity | lia].
Qed.

Lemma unshiftTrade_cons trade h : Swap.unshiftTrade trade h = trade :: take 29 h.
Proof. apply (unshift_slice 29). Qed.

Lemma Persist_unshiftTrade_cons trade h : Persist.unshiftTrade trade h = trade :: take 99 h.
Proof. apply (unshift_slice 99). Qed.

Lemma unshiftTrade_length trade h : (length (Swap.unshiftTrade trade h) <= 30)%nat.
Proof. rewrite unshiftTrade_cons. simpl. rewrite length_take. lia. Qed.

Lemma Persist_unshiftTrade_length trade h : (length (Persist.unshiftTrade trade h) <= 100)%nat.
Proof. rewrite Persist_unshiftTrade_cons. simpl. rewrite length_take. lia. Qed.

(** C6: [emitNewTrade] puts the trade at the front of the buffer and keeps
    behind it the first 29 (capacity minus one) entries of the old buffer,
    in their order; so it is in [Debounce] (first version of server.ts) and
    in [Store] (part_000). *)
Theorem emitNewTrade_prepends_and_truncates :
  (forall trade s,
     Debounce.tradeBuffer (Debounce.emitNewTrade trade s) =
       trade :: take 29 (Debounce.tradeBuffer s)) /\
  (forall trade s,
     Store.tradeBuffer (Store.emitNewTrade trade s) =
       trade :: take 29 (Store.tradeBuffer s)).
Proof.
  split; intros trade s; simpl; apply unshiftTrade_cons.
Qed.

(** In [Persist] the capacity is 100 and the trade is tagged before it is
    stored. *)
Lemma Persist_emitNewTrade_buffer trade s :
  exists tagged,
    Persist.tradeBuffer (Persist.emitNewTrade trade s) = tagged :: take 99 (Persist.tradeBuffer s) /\
    Persist.amount tagged = Persist.amount trade /\
    Persist.bnbAmount tagged = Persist.bnbAmount trade /\
    Persist.source tagged = "ocicat"%string.
Proof.
  eexists. split; [simpl; apply Persist_unshiftTrade_cons | done].
Qed.

Lemma fetchInitialTrades_length rpc clock h :
  (length h <= 30 -> length (Swap.fetchInitialTrades rpc clock h) <= 30)%nat.
Proof.
  intros Hh. unfold Swap.fetchInitialTrades.
  destruct (getBlockNumber rpc) as [currentBlock |]; simpl; [| done].
  destruct (getLogs rpc _ _) as [logs |]; simpl; [| done].
  rewrite length_imap. unfold slice0. rewrite length_take. lia.
Qed.

Lemma Persist_fetchInitialTrades_length rpc clock s :
  (length (Persist.tradeBuffer s) <= 100 ->
   length (Persist.tradeBuffer (Persist.fetchInitialTrades rpc clock s)) <= 100)%nat.
Proof.
  intros Hs. unfold Persist.fetchInitialTrades.
  destruct (getBlockNumber rpc) as [currentBlock |]; simpl; [| done].
  destruct (getLogs rpc _ _) as [logs |]; simpl; [| done].
  destruct (Persist.mapFrom _ _ _) as [initialTrades | err]; simpl; [| done].
  unfold slice0. rewrite length_take. lia.
Qed.

(** In [Persist] the callback of [map] throws at its first call. *)
Lemma Persist_mapFrom_throws clock i log logs :
  Persist.mapFrom (fun i log => Persist.initialTrade (clock i) log) i (log :: logs) =
    Throw ReferenceError.
Proof. reflexivity. Qed.

(** So a backfill of [Persist] changes the server only when the node
    answers with no log at all, and then it only rewrites the file. *)
Lemma Persist_fetchInitialTrades_buffer rpc clock s :
  Persist.fetchInitialTrades rpc clock s = s \/
  Persist.fetchInitialTrades rpc clock s =
    Persist.saveTradesToFile (take 100 (Persist.tradeBuffer s))
      (Persist.set_tradeBuffer (take 100 (Persist.tradeBuffer s)) s).
Proof.
  unfold Persist.fetchInitialTrades.
  destruct (getBlockNumber rpc) as [currentBlock |]; simpl; [| by left].
  destruct (getLogs rpc _ _) as [logs |]; simpl; [| by left].
  unfold slice0. destruct (take 30 (sortLogs logs)) as [| log rest].
  - right. reflexivity.
  - left. reflexivity.
Qed.

Lemma Debounce_step_length s ev :
  (length (Debounce.tradeBuffer s) <= 30 ->
   length (Debounce.tradeBuffer (Debounce.step s ev)) <= 30)%nat.
Proof.
  intros Hs. destruct ev as [socket ip now | socket rpc clock | e txHash now | socket]; simpl.
  - unfold Debounce.onConnection, Debounce.socketEmit. simpl.
    repeat (case_match; simpl); done.
  - unfold Debounce.onFetched, Debounce.socketEmit. simpl.
    repeat (case_match; simpl); try done; by apply fetchInitialTrades_length.
  - unfold Debounce.onSwap. destruct (Swap.swapTrade e txHash now); [| done].
    simpl. apply unshiftTrade_length.
  - done.
Qed.

Lemma Store_onTransactionsNew_store tx s :
  Store.transactionStore (Store.onTransactionsNew tx s) = tx :: take 99 (Store.transactionStore s).
Proof. exact (unshift_slice 99 tx (Store.transactionStore s)). Qed.

Lemma Persist_step_length s ev :
  (length (Persist.tradeBuffer s) <= 100 ->
   length (Persist.tradeBuffer (Persist.step s ev)) <= 100)%nat.
Proof.
  intros Hs. destruct ev as [socket ip now | rpc clock | tx now | e txHash now | socket]; simpl.
  - unfold Persist.onConnection, Persist.socketEmit. simpl. case_match; done.
  - by apply Persist_fetchInitialTrades_length.
  - apply Persist_unshiftTrade_length.
  - unfold Persist.onSwap. destruct (Persist.swapTrade e txHash now); [| done].
    simpl. apply Persist_unshiftTrade_length.
  - done.
Qed.

(** C5: whatever events the server handles (inserts from the pair listener
    or the external stream, backfills that succeed or fail, subscribers
    coming and going), the history never holds more than its capacity: 30
    for the trade buffer of [Debounce] and of [Store], 100 for [Store]'s
    transaction store and for the buffer of [Persist], each started from no
    more than that (the buffer of [Persist] starts from the file it saved).
    And every single insert leaves the history within capacity, whatever
    was in it before. *)
Theorem history_length_bounded :
  (forall evs, length (Debounce.tradeBuffer (Debounce.run evs Debounce.initial)) <= 30)%nat /\
  (forall store evs,
     length (Store.tradeBuffer (Store.run evs (Store.initial store))) <= 30)%nat /\
  (forall store evs,
     length store <= 100 ->
     length (Store.transactionStore (Store.run evs (Store.initial store))) <= 100)%nat /\
  (forall file evs,
     length (Persist.loadTradesFromFile file) <= 100 ->
     length (Persist.tradeBuffer (Persist.run evs (Persist.initial file))) <= 100)%nat /\
  (forall trade s, length (Debounce.tradeBuffer (Debounce.emitNewTrade trade s)) <= 30)%nat /\
  (forall trade s, length (Store.tradeBuffer (Store.emitNewTrade trade s)) <= 30)%nat /\
  (forall tx s, length (Store.transactionStore (Store.onTransactionsNew tx s)) <= 100)%nat /\
  (forall trade s, length (Persist.tradeBuffer (Persist.emitNewTrade trade s)) <= 100)%nat /\
  (forall tx now s, length (Persist.tradeBuffer (Persist.onTransactionsNew tx now s)) <= 100)%nat /\
  (forall rpc clock h,
     Swap.fetchInitialTrades rpc clock h = h \/
     length (Swap.fetchInitialTrades rpc clock h) <= 30)%nat /\
  (forall rpc clock s,
     Persist.fetchInitialTrades rpc clock s = s \/
     length (Persist.tradeBuffer (Persist.fetchInitialTrades rpc clock s)) <= 100)%nat.
Proof.
  split; [| split; [| split; [| split; [| split; [| split; [| split; [| split;
    [| split; [| split]]]]]]]]].
  - intros evs. unfold Debounce.run.
    induction evs as [| ev evs IH] using rev_ind; [simpl; lia |].
    rewrite foldl_snoc. by apply Debounce_step_length.
  - intros store evs. revert store. unfold Store.run.
    induction evs as [| ev evs IH] using rev_ind; intros store; [simpl; lia |].
    rewrite foldl_snoc.
    destruct ev as [socket ip now | rpc clock | tx | e txHash now | socket]; cbn [Store.step].
    + unfold Store.onConnection, Store.socketEmit. simpl. case_match; apply IH.
    + apply fetchInitialTrades_length, IH.
    + apply IH.
    + unfold Store.onSwap. destruct (Swap.swapTrade e txHash now); [| apply IH].
      simpl. apply unshiftTrade_length.
    + apply IH.
  - intros store evs Hstore. unfold Store.run.
    induction evs as [| ev evs IH] using rev_ind; [done |].
    rewrite foldl_snoc.
    destruct ev as [socket ip now | rpc clock | tx | e txHash now | socket]; cbn [Store.step].
    + unfold Store.onConnection, Store.socketEmit. simpl. case_match; apply IH.
    + apply IH.
    + rewrite Store_onTransactionsNew_store. simpl. rewrite length_take. lia.
    + unfold Store.onSwap. destruct (Swap.swapTrade e txHash now); apply IH.
    + apply IH.
  - intros file evs Hfile. unfold Persist.run.
    induction evs as [| ev evs IH] using rev_ind; [done |].
    rewrite foldl_snoc. by apply Persist_step_length.
  - intros trade s. simpl. apply unshiftTrade_length.
  - intros trade s. simpl. apply unshiftTrade_length.
  - intros tx s. rewrite Store_onTransactionsNew_store. simpl. rewrite length_take. lia.
  - intros trade s. simpl. apply Persist_unshiftTrade_length.
  - intros tx now s. simpl. apply Persist_unshiftTrade_length.
  - intros rpc clock h. unfold Swap.fetchInitialTrades.
    destruct (getBlockNumber rpc) as [currentBlock |]; simpl; [| by left].
    destruct (getLogs rpc _ _) as [logs |]; simpl; [| by left].
    right. rewrite length_imap. unfold slice0. rewrite length_take. lia.
  - intros rpc clock s.
    destruct (Persist_fetchInitialTrades_buffer rpc clock s) as [-> | ->]; [by left |].
    right. simpl. rewrite length_take. lia.
Qed.

(** ** Zero amounts *)

Lemma swapTrade_positive e txHash now trade :
  Swap.swapTrade e txHash now = Some trade -> Swap.positiveAmounts trade.
Proof.
  unfold Swap.swapTrade, Swap.positiveAmounts.
  destruct (N.ltb_spec 0 (amount1Out e)) as [Hout | Hout]; cbv beta iota zeta.
  - rewrite !isZero_parseFloat by lia.
    destruct (N.eqb_spec (amount1Out e) 0); [done |].
    destruct (N.eqb_spec (amount0In e) 0); [done |].
    intros [= <-]. cbn [Swap.amount Swap.bnbAmount]. split; apply formatUnits_pos; lia.
  - destruct (N.ltb_spec 0 (amount1In e)) as [Hin | Hin]; cbv beta iota zeta; [| done].
    rewrite !isZero_parseFloat by lia.
    destruct (N.eqb_spec (amount1In e) 0); [done |].
    destruct (N.eqb_spec (amount0Out e) 0); [done |].
    intros [= <-]. cbn [Swap.amount Swap.bnbAmount]. split; apply formatUnits_pos; lia.
Qed.

Lemma Persist_swapTrade_positive e txHash now trade :
  Persist.swapTrade e txHash now = Some trade -> Persist.positiveAmounts trade.
Proof.
  unfold Persist.swapTrade, Persist.positiveAmounts.
  destruct (N.ltb_spec 0 (amount1Out e)) as [Hout | Hout]; cbv beta iota zeta.
  - rewrite !isZero_parseFloat by lia.
    destruct (N.eqb_spec (amount1Out e) 0); [done |].
    destruct (N.eqb_spec (amount0In e) 0); [done |].
    intros [= <-]. cbn [Persist.amount Persist.bnbAmount]. split; apply formatUnits_pos; lia.
  - destruct (N.ltb_spec 0 (amount1In e)) as [Hin | Hin]; cbv beta iota zeta; [| done].
    rewrite !isZero_parseFloat by lia.
    destruct (N.eqb_spec (amount1In e) 0); [done |].
    destruct (N.eqb_spec (amount0Out e) 0); [done |].
    intros [= <-]. cbn [Persist.amount Persist.bnbAmount]. split; apply formatUnits_pos; lia.
Qed.

Lemma Forall_cons_take {A} (P : A -> Prop) (x : A) (n : nat) (l : list A) :
  P x -> Forall P l -> Forall P (x :: take n l).
Proof. intros Hx Hl. constructor; [done | by apply Forall_take]. Qed.

Lemma Debounce_onConnection_buffer socket ip now s :
  Debounce.tradeBuffer (Debounce.onConnection socket ip now s) = Debounce.tradeBuffer s.
Proof.
  unfold Debounce.onConnection, Debounce.socketEmit. simpl. repeat case_match; done.
Qed.

Lemma Debounce_onSwap_positive e txHash now s :
  Forall Swap.positiveAmounts (Debounce.tradeBuffer s) ->
  Forall Swap.positiveAmounts (Debounce.tradeBuffer (Debounce.onSwap e txHash now s)).
Proof.
  intros Hs. unfold Debounce.onSwap.
  destruct (Swap.swapTrade e txHash now) as [trade |] eqn:E; [| done].
  cbn [Debounce.tradeBuffer Debounce.emitNewTrade Debounce.ioEmit Debounce.set_wire
       Debounce.set_tradeBuffer].
  rewrite unshiftTrade_cons. apply Forall_cons_take; [| done].
  by eapply swapTrade_positive.
Qed.

(** C1 (as amended): the live path never lets a trade with a zero amount
    into the history: a trade that the [Swap] callback builds has both
    amounts strictly positive, so in all three versions a history that
    holds only such trades still does after the callback, and in
    [Debounce] the history holds only such trades as long as no backfill
    has run.  The external transaction stream
    checks nothing: every transaction it delivers is put at the front of
    the history, its amounts being those of the transaction, or 0 where the
    transaction has none. *)
Theorem zero_amounts_by_path :
  (forall e txHash now s,
     Forall Swap.positiveAmounts (Debounce.tradeBuffer s) ->
     Forall Swap.positiveAmounts (Debounce.tradeBuffer (Debounce.onSwap e txHash now s))) /\
  (forall evs,
     Forall (fun ev => match ev with Debounce.Fetched _ _ _ => False | _ => True end) evs ->
     Forall Swap.positiveAmounts (Debounce.tradeBuffer (Debounce.run evs Debounce.initial))) /\
  (forall e txHash now s,
     Forall Swap.positiveAmounts (Store.tradeBuffer s) ->
     Forall Swap.positiveAmounts (Store.tradeBuffer (Store.onSwap e txHash now s))) /\
  (forall e txHash now s,
     Forall Persist.positiveAmounts (Persist.tradeBuffer s) ->
     Forall Persist.positiveAmounts (Persist.tradeBuffer (Persist.onSwap e txHash now s))) /\
  (forall tx now s,
     exists trade,
       Persist.tradeBuffer (Persist.onTransactionsNew tx now s) =
         trade :: take 99 (Persist.tradeBuffer s) /\
       Persist.amount trade = default 0%Q (Tx.amountInToken tx) /\
       Persist.bnbAmount trade = default 0%Q (Tx.amountInChainCurrency tx)).
Proof.
  split; [| split; [| split; [| split]]].
  - intros e txHash now s. apply Debounce_onSwap_positive.
  - intros evs. unfold Debounce.run.
    induction evs as [| ev evs IH] using rev_ind; intros Hevs; [constructor |].
    apply Forall_app in Hevs as [Hevs Hev]. rewrite Forall_singleton in Hev.
    rewrite foldl_snoc.
    destruct ev as [socket ip now | socket rpc clock | e txHash now | socket]; cbn [Debounce.step].
    + rewrite Debounce_onConnection_buffer. by apply IH.
    + destruct Hev.
    + apply Debounce_onSwap_positive. by apply IH.
    + by apply IH.
  - intros e txHash now s Hs. unfold Store.onSwap.
    destruct (Swap.swapTrade e txHash now) as [trade |] eqn:E; [| done].
    cbn [Store.tradeBuffer Store.emitNewTrade Store.ioEmit Store.set_wire
         Store.set_tradeBuffer].
    rewrite unshiftTrade_cons. apply Forall_cons_take; [| done].
    by eapply swapTrade_positive.
  - intros e txHash now s Hs. unfold Persist.onSwap.
    destruct (Persist.swapTrade e txHash now) as [trade |] eqn:E; [| done].
    destruct (Persist_emitNewTrade_buffer trade s) as (tagged & -> & Ha & Hb & _).
    apply Forall_cons_take; [| done].
    apply Persist_swapTrade_positive in E. unfold Persist.positiveAmounts in *.
    by rewrite Ha, Hb.
  - intros tx now s. eexists. split.
    + cbn [Persist.tradeBuffer Persist.onTransactionsNew Persist.ioEmit Persist.set_wire
           Persist.saveTradesToFile Persist.set_tradeBuffer].
      apply Persist_unshiftTrade_cons.
    + split; reflexivity.
Qed.

(** C1, the claim as stated fails: the external stream delivers a
    transaction without amounts and the history then holds a trade whose
    amounts are 0. *)
Lemma external_zero_amount_enters_history :
  exists trade,
    Persist.tradeBuffer
      (Persist.run [Persist.Transaction bareTx "t"] (Persist.initial None)) = [trade] /\
    (Persist.amount trade == 0)%Q /\ (Persist.bnbAmount trade == 0)%Q.
Proof. eexists. split; [reflexivity | split; reflexivity]. Qed.

(** The live path at a buy, from the empty history. *)
Lemma zero_amounts_by_path_witness :
  Forall Swap.positiveAmounts
    (Debounce.tradeBuffer (Debounce.onSwap aBuy None "t" Debounce.initial)).
Proof.
  apply (proj1 zero_amounts_by_path aBuy None "t"%string Debounce.initial).
  simpl. constructor.
Defined.

(** The bound after one external transaction: [Persist] started without a
    file, [Store] started with one transaction in its store. *)
Lemma history_length_bounded_witness :
  (length (Persist.tradeBuffer
     (Persist.run [Persist.Transaction bareTx "t"] (Persist.initial None))) <= 100)%nat /\
  (length (Store.transactionStore
     (Store.run [Store.Transaction bareTx] (Store.initial [bareTx]))) <= 100)%nat.
Proof.
  split.
  - apply (proj1 (proj2 (proj2 (proj2 history_length_bounded)))
             None [Persist.Transaction bareTx "t"%string]).
    simpl. lia.
  - apply (proj1 (proj2 (proj2 history_length_bounded))
             [bareTx] [Store.Transaction bareTx]).
    simpl. lia.
Defined.

(** ** Backfill *)

Lemma compareLogs_notOlder a b : compareLogs a b <= 0 <-> notOlder a b.
Proof.
  unfold compareLogs, notOlder.
  destruct (Z.eqb_spec (blockNumber a) (blockNumber b)); simpl; lia.
Qed.

Lemma notOlder_total a b : ~ notOlder a b -> notOlder b a.
Proof. unfold notOlder. lia. Qed.

Lemma notOlder_trans a b c : notOlder a b -> notOlder b c -> notOlder a c.
Proof. unfold notOlder. lia. Qed.

Lemma insertLog_Permutation x l : insertLog x l ≡ₚ x :: l.
Proof.
  induction l as [| y l IH]; simpl; [done |].
  destruct (compareLogs x y <=? 0); [done |].
  rewrite IH. apply Permutation_swap.
Qed.

Lemma sortLogs_Permutation logs : sortLogs logs ≡ₚ logs.
Proof.
  induction logs as [| x logs IH]; simpl; [done |].
  by rewrite insertLog_Permutation, IH.
Qed.

Lemma insertLog_sorted x l :
  StronglySorted notOlder l -> StronglySorted notOlder (insertLog x l).
Proof.
  induction 1 as [| y l Hl IH Hy]; simpl.
  - repeat constructor.
  - destruct (Z.leb_spec (compareLogs x y) 0) as [Hle | Hgt].
    + apply compareLogs_notOlder in Hle.
      constructor; [by constructor |].
      constructor; [done |].
      eapply Forall_impl; [exact Hy |]. intros z Hz. by eapply notOlder_trans.
    + constructor; [done |].
      rewrite insertLog_Permutation. constructor; [| done].
      apply notOlder_total. rewrite <- compareLogs_notOlder. lia.
Qed.

(** The sorted logs are the logs of the answer, each as often as it occurs
    there, in the order of block height descending and, within a block,
    transaction index descending. *)
Lemma sortLogs_sorted logs :
  StronglySorted notOlder (sortLogs logs) /\ sortLogs logs ≡ₚ logs.
Proof.
  split; [| apply sortLogs_Permutation].
  induction logs as [| x logs IH]; simpl; [constructor | by apply insertLog_sorted].
Qed.

(** The query asks for the blocks [currentBlock - 500 .. currentBlock]. *)
Lemma getLogs_window rpc currentBlock logs log :
  getLogs rpc (currentBlock - 500) currentBlock = Some logs -> log ∈ logs ->
  currentBlock - 500 <= blockNumber log <= currentBlock.
Proof.
  unfold getLogs. destruct (pairLogs rpc) as [all |]; simpl; [| done].
  intros [= <-]. rewrite list_elem_of_filter. tauto.
Qed.

(** What a successful backfill of [Debounce] and [Store] leaves in the
    buffer: the 30 first of the sorted logs, each turned into a trade by
    the backfill's own rule, none dropped. *)
Lemma fetchInitialTrades_resolved rpc clock h currentBlock logs :
  getBlockNumber rpc = Some currentBlock ->
  getLogs rpc (currentBlock - 500) currentBlock = Some logs ->
  Swap.fetchInitialTrades rpc clock h =
    imap (fun i log => Swap.initialTrade (clock i) log) (take 30 (sortLogs logs)).
Proof.
  intros Hb Hl. unfold Swap.fetchInitialTrades. rewrite Hb. simpl. by rewrite Hl.
Qed.

Lemma fetchInitialTrades_rejected rpc clock h :
  getBlockNumber rpc = None \/ pairLogs rpc = None ->
  Swap.fetchInitialTrades rpc clock h = h.
Proof.
  intros [Hb | Hl]; unfold Swap.fetchInitialTrades.
  - by rewrite Hb.
  - destruct (getBlockNumber rpc); [| done]. unfold getLogs. by rewrite Hl.
Qed.

(** C2: the backfill of [Debounce] and [Store] does not decode like the
    live path.  For the sell [aSell] the live callback builds a sell of 3
    tokens for 1 BNB; the backfill, given the same swap in a log, writes
    into the history a trade marked sell whose two amounts are 0.  The
    backfill of [Persist] writes nothing at all for that log and leaves
    the history as it was. *)
Theorem backfill_decodes_unlike_live_path :
  Swap.swapTrade aSell (Some "0xsell"%string) "t"%string =
    Some {| Swap.hash := "0xsell"; Swap.time := "t";
            Swap.buyer := "0xrouter"; Swap.seller := "0xbob";
            Swap.amount := formatUnits 3000000 6;
            Swap.bnbAmount := formatUnits 1000000000000000000 18;
            Swap.action := Swap.sell |} /\
  Swap.fetchInitialTrades nodeWithSell atT [] =
    [ {| Swap.hash := "0xsell"; Swap.time := "t";
         Swap.buyer := "0xrouter"; Swap.seller := "0xbob";
         Swap.amount := formatUnits 0 6;
         Swap.bnbAmount := formatUnits 0 18;
         Swap.action := Swap.sell |} ] /\
  Persist.fetchInitialTrades nodeWithSell atT (Persist.initial None) = Persist.initial None.
Proof. split; [reflexivity | split; reflexivity]. Qed.

(** C10: the backfill of [Persist] does not merge.  The node answers with
    one log, a buy; the callback that should turn it into a trade throws
    while [initialTrades] is being initialised, the [catch] logs the error,
    and buffer and file stay as they were: no historical trade is put
    ahead of the entries that were there. *)
Theorem Persist_backfill_prepends_nothing :
  forall s, Persist.fetchInitialTrades nodeWithBuy atT s = s.
Proof. intros s. reflexivity. Qed.

(** ** Reconnecting *)

(** The [close] handler stays where the module put it: on the websocket of
    the first connection. *)
Lemma closeHandlers_initial evs :
  Reconnect.closeHandlers (Reconnect.run evs Reconnect.initial) = [0%nat].
Proof.
  unfold Reconnect.run. induction evs as [| ev evs IH] using rev_ind; [done |].
  rewrite foldl_snoc. destruct ev as [c |]; simpl.
  - unfold Reconnect.onClose. rewrite IH. simpl. by case_bool_decide.
  - unfold Reconnect.onTimeout. by destruct (Reconnect.timers _).
Qed.

(** Hence the close of any later connection goes unnoticed. *)
Lemma onClose_later_connection evs c :
  c <> 0%nat ->
  Reconnect.onClose c (Reconnect.run evs Reconnect.initial) = Reconnect.run evs Reconnect.initial.
Proof.
  intros Hc. unfold Reconnect.onClose. rewrite closeHandlers_initial. simpl.
  by rewrite bool_decide_false.
Qed.

(** C3: the first connection closes: a timer of 3000 ms is set, and when it
    expires a new connection 1 is constructed, made the provider, and given
    the [Swap] listener.  Then connection 1 closes: no timer is set and
    nothing is constructed; the server stays on the closed connection. *)
Theorem reconnect_happens_once :
  Reconnect.timers (Reconnect.run [Reconnect.Close 0] Reconnect.initial) = [3000] /\
  Reconnect.run [Reconnect.Close 0; Reconnect.Timeout] Reconnect.initial =
    {| Reconnect.provider := 1; Reconnect.constructed := 2;
       Reconnect.swapListeners := [1%nat; 0%nat]; Reconnect.closeHandlers := [0%nat];
       Reconnect.timers := [] |} /\
  Reconnect.run [Reconnect.Close 0; Reconnect.Timeout; Reconnect.Close 1] Reconnect.initial =
    Reconnect.run [Reconnect.Close 0; Reconnect.Timeout] Reconnect.initial.
Proof. split; [reflexivity | split; reflexivity]. Qed.

(** ** The debounce of new connections *)

Lemma Debounce_onConnection_rejected socket ip now s :
  now - default 0 (Debounce.clientLastRequest s !! ip) < 5000 ->
  Debounce.onConnection socket ip now s =
    Debounce.set_sockets (filter (fun k => k <> socket) (socket :: Debounce.sockets s)) s.
Proof.
  intros Hlt. unfold Debounce.onConnection. cbn [Debounce.clientLastRequest Debounce.set_sockets].
  by rewrite (proj2 (Z.ltb_lt _ _) Hlt).
Qed.

Lemma Debounce_onConnection_accepted socket ip now s :
  5000 <= now - default 0 (Debounce.clientLastRequest s !! ip) ->
  Debounce.clientLastRequest (Debounce.onConnection socket ip now s) =
    <[ip := now]> (Debounce.clientLastRequest s) /\
  Debounce.sockets (Debounce.onConnection socket ip now s) = socket :: Debounce.sockets s.
Proof.
  intros Hge. unfold Debounce.onConnection, Debounce.socketEmit.
  cbn [Debounce.clientLastRequest Debounce.set_sockets Debounce.tradeBuffer
       Debounce.set_clientLastRequest Debounce.sockets].
  rewrite (proj2 (Z.ltb_ge _ _) Hge).
  repeat case_match; done.
Qed.

Lemma Debounce_connected_onConnection socket ip now s :
  Debounce.connected socket (Debounce.onConnection socket ip now s) =
    negb (now - default 0 (Debounce.clientLastRequest s !! ip) <? 5000).
Proof.
  unfold Debounce.connected.
  destruct (Z.ltb_spec (now - default 0 (Debounce.clientLastRequest s !! ip)) 5000) as [Hlt | Hge].
  - rewrite Debounce_onConnection_rejected by done. simpl.
    apply bool_decide_eq_false. rewrite list_elem_of_filter. tauto.
  - destruct (Debounce_onConnection_accepted socket ip now s Hge) as [_ ->].
    apply bool_decide_eq_true. left.
Qed.

Lemma Debounce_clientLastRequest_step s ev ip :
  Debounce.clientLastRequest (Debounce.step s ev) !! ip =
    match ev with
    | Debounce.Connection socket ip' now =>
        if Debounce.connected socket (Debounce.step s ev) && bool_decide (ip' = ip)
        then Some now else Debounce.clientLastRequest s !! ip
    | _ => Debounce.clientLastRequest s !! ip
    end.
Proof.
  destruct ev as [socket ip' now | socket rpc clock | e txHash now | socket]; cbn [Debounce.step].
  - rewrite Debounce_connected_onConnection.
    destruct (Z.ltb_spec (now - default 0 (Debounce.clientLastRequest s !! ip')) 5000)
      as [Hlt | Hge]; simpl.
    + by rewrite Debounce_onConnection_rejected.
    + destruct (Debounce_onConnection_accepted socket ip' now s Hge) as [-> _].
      case_bool_decide as Hip.
      * subst. by rewrite lookup_insert_eq.
      * by rewrite lookup_insert_ne.
  - unfold Debounce.onFetched, Debounce.socketEmit. repeat case_match; done.
  - unfold Debounce.onSwap. by destruct (Swap.swapTrade e txHash now).
  - done.
Qed.

(** The registry holds, for every origin, the time of its latest accepted
    attach. *)
Lemma Debounce_clientLastRequest_run evs : forall s ip,
  Debounce.clientLastRequest (Debounce.run evs s) !! ip =
    match Debounce.lastAccepted ip (Debounce.attaches evs s) with
    | Some t => Some t
    | None => Debounce.clientLastRequest s !! ip
    end.
Proof.
  induction evs as [| ev evs IH]; intros s ip; [done |].
  change (Debounce.run (ev :: evs) s) with (Debounce.run evs (Debounce.step s ev)).
  rewrite IH, (Debounce_clientLastRequest_step s ev ip).
  unfold Debounce.lastAccepted.
  destruct ev as [socket ip' now | socket rpc clock | e txHash now | socket];
    cbn [Debounce.attaches]; try done.
  cbn [omap list_omap fst snd].
  destruct (Debounce.connected socket _ && bool_decide (ip' = ip)); [| done].
  rewrite last_cons. by destruct (last _).
Qed.

(** C7 (as amended): in [Debounce], the one version that reads
    [clientLastRequest], an attach is rejected (its socket is disconnected
    in the connection handler and nothing is written to it) exactly when
    its time is less than 5000 ms after the latest accepted attach of the
    same origin, an origin that has none counting as accepted at time 0;
    at or after 5000 ms it is accepted.  [Persist] and [Store] keep no
    record of origins and accept every attach. *)
Theorem attach_debounce :
  (forall evs socket ip now,
     (Debounce.connected socket
        (Debounce.onConnection socket ip now (Debounce.run evs Debounce.initial)) = false <->
      now - default 0 (Debounce.lastAccepted ip (Debounce.attaches evs Debounce.initial)) < 5000) /\
     (Debounce.connected socket
        (Debounce.onConnection socket ip now (Debounce.run evs Debounce.initial)) = false ->
      Debounce.wire (Debounce.onConnection socket ip now (Debounce.run evs Debounce.initial)) =
        Debounce.wire (Debounce.run evs Debounce.initial))) /\
  (forall socket s, Persist.connected socket (Persist.onConnection socket s) = true) /\
  (forall socket s, Store.connected socket (Store.onConnection socket s) = true).
Proof.
  split; [| split].
  - intros evs socket ip now.
    assert (default 0 (Debounce.clientLastRequest (Debounce.run evs Debounce.initial) !! ip) =
            default 0 (Debounce.lastAccepted ip (Debounce.attaches evs Debounce.initial))) as E.
    { rewrite (Debounce_clientLastRequest_run evs Debounce.initial ip).
      destruct (Debounce.lastAccepted _ _); [done |]. simpl. by rewrite lookup_empty. }
    rewrite Debounce_connected_onConnection, negb_false_iff, Z.ltb_lt, E.
    split; [done |].
    intros Hlt. rewrite <- E in Hlt. by rewrite Debounce_onConnection_rejected.
  - intros socket s. unfold Persist.connected, Persist.onConnection, Persist.socketEmit.
    cbn [Persist.sockets Persist.set_sockets].
    apply bool_decide_eq_true. case_bool_decide; simpl; left.
  - intros socket s. unfold Store.connected, Store.onConnection, Store.socketEmit.
    cbn [Store.sockets Store.set_sockets].
    apply bool_decide_eq_true. case_bool_decide; simpl; left.
Qed.

(** C7, the claim as stated fails in [Store] (part_000): two attaches come
    from one address one millisecond apart, and the second is not rejected:
    both sockets stay connected and the second is sent the history. *)
Lemma second_attach_within_window_accepted :
  Store.connected 1 (Store.run twoAttaches (Store.initial [])) = true /\
  Store.connected 2 (Store.run twoAttaches (Store.initial [])) = true /\
  Store.inbox 2 (Store.run twoAttaches (Store.initial [])) = [Store.transaction_history []].
Proof. repeat split; reflexivity. Qed.

(** In [Debounce] an attach one second after an accepted one of the same
    origin is rejected. *)
Lemma attach_debounce_witness :
  Debounce.connected 2
    (Debounce.onConnection 2 "10.0.0.1" 1700000001000
       (Debounce.run [Debounce.Connection 1 "10.0.0.1" 1700000000000] Debounce.initial)) = false.
Proof.
  apply (proj1 (proj1 attach_debounce
                  [Debounce.Connection 1 "10.0.0.1"%string 1700000000000] 2%nat
                  "10.0.0.1"%string 1700000001000)).
  vm_compute. reflexivity.
Defined.

Lemma Debounce_rejected_attempts ip t0 attempts : forall s,
  Debounce.clientLastRequest s !! ip = Some t0 ->
  Forall (fun a : nat * Z => a.2 - t0 < 5000) attempts ->
  Debounce.clientLastRequest
    (Debounce.run (map (fun a : nat * Z => Debounce.Connection a.1 ip a.2) attempts) s) =
  Debounce.clientLastRequest s.
Proof.
  induction attempts as [| [socket now] attempts IH]; intros s Hs Hall; [done |].
  apply Forall_cons in Hall as [Hnow Hall]. simpl in Hnow.
  cbn [map fst snd]. unfold Debounce.run. cbn [foldl Debounce.step].
  fold (Debounce.run (map (fun a : nat * Z => Debounce.Connection a.1 ip a.2) attempts)
          (Debounce.onConnection socket ip now s)).
  assert (Debounce.onConnection socket ip now s =
          Debounce.set_sockets (filter (fun k => k <> socket) (socket :: Debounce.sockets s)) s) as ->.
  { apply Debounce_onConnection_rejected. by rewrite Hs. }
  by rewrite IH.
Qed.

(** C9: a rejected attach leaves [clientLastRequest] as it was (and the
    buffer, the suspended handlers and the packets sent as well), so the
    window is counted from the latest accepted attach: after an accepted
    attach at [t0], however many attempts of the same origin are rejected
    inside the window, an attach at [t0 + 5000] or later is accepted. *)
Theorem rejected_attach_keeps_registry :
  (forall socket ip now s,
     Debounce.connected socket (Debounce.onConnection socket ip now s) = false ->
     Debounce.clientLastRequest (Debounce.onConnection socket ip now s) =
       Debounce.clientLastRequest s /\
     Debounce.tradeBuffer (Debounce.onConnection socket ip now s) = Debounce.tradeBuffer s /\
     Debounce.awaiting (Debounce.onConnection socket ip now s) = Debounce.awaiting s /\
     Debounce.wire (Debounce.onConnection socket ip now s) = Debounce.wire s) /\
  (forall ip t0 s (attempts : list (nat * Z)) socket now,
     Debounce.clientLastRequest s !! ip = Some t0 ->
     Forall (fun a => a.2 - t0 < 5000) attempts ->
     5000 <= now - t0 ->
     Debounce.connected socket
       (Debounce.onConnection socket ip now
          (Debounce.run (map (fun a => Debounce.Connection a.1 ip a.2) attempts) s)) = true).
Proof.
  split.
  - intros socket ip now s.
    rewrite Debounce_connected_onConnection, negb_false_iff, Z.ltb_lt. intros Hlt.
    by rewrite Debounce_onConnection_rejected.
  - intros ip t0 s attempts socket now Hs Hall Hnow.
    rewrite Debounce_connected_onConnection, negb_true_iff, Z.ltb_ge.
    rewrite (Debounce_rejected_attempts ip t0 attempts s Hs Hall), Hs. done.
Qed.

(** Accepted at [t0 = 1700000000000], rejected one and four seconds later,
    accepted five seconds later. *)
Lemma rejected_attach_keeps_registry_witness :
  Debounce.connected 4
    (Debounce.onConnection 4 "10.0.0.1" 1700000005000
       (Debounce.run
          (map (fun a : nat * Z => Debounce.Connection a.1 "10.0.0.1" a.2)
             [(2%nat, 1700000001000); (3%nat, 1700000004000)])
          (Debounce.onConnection 1 "10.0.0.1" 1700000000000 Debounce.initial))) = true.
Proof.
  apply (proj2 rejected_attach_keeps_registry "10.0.0.1"%string 1700000000000).
  - vm_compute. reflexivity.
  - repeat constructor.
  - lia.
Defined.

(** ** The snapshot on attach *)

Lemma omap_broadcast {P} (socket : nat) (p : P) (l : list nat) :
  Forall (fun q => q = p)
    (omap (fun kp : nat * P => if bool_decide (kp.1 = socket) then Some kp.2 else None)
       (map (fun k => (k, p)) l)).
Proof.
  induction l as [| k l IH]; simpl; [constructor |].
  case_bool_decide; [by constructor | done].
Qed.

Lemma Debounce_inbox_snoc socket k p s :
  Debounce.inbox socket (Debounce.set_wire (Debounce.wire s ++ [(k, p)]) s) =
    Debounce.inbox socket s ++ (if bool_decide (k = socket) then [p] else []).
Proof.
  unfold Debounce.inbox. cbn [Debounce.wire Debounce.set_wire].
  rewrite omap_app. simpl. by case_bool_decide.
Qed.

Lemma Debounce_onSwap_lives socket e txHash now s :
  exists lives,
    Debounce.inbox socket (Debounce.onSwap e txHash now s) = Debounce.inbox socket s ++ lives /\
    Forall Debounce.isLive lives /\
    Debounce.awaiting (Debounce.onSwap e txHash now s) = Debounce.awaiting s.
Proof.
  unfold Debounce.onSwap. destruct (Swap.swapTrade e txHash now) as [trade |].
  - eexists. split; [| split; [| done]].
    + unfold Debounce.inbox, Debounce.emitNewTrade, Debounce.ioEmit.
      cbn [Debounce.wire Debounce.set_wire Debounce.set_tradeBuffer Debounce.sockets].
      apply omap_app.
    + eapply Forall_impl; [apply omap_broadcast |]. by intros q ->.
  - exists []. by rewrite app_nil_r.
Qed.

(** Anything but the socket's own connection and the settling of its own
    backfill brings the socket per-trade messages only. *)
Lemma Debounce_step_lives socket s ev :
  match ev with Debounce.Connection k _ _ => k <> socket | _ => True end ->
  socket ∉ Debounce.awaiting s \/
    match ev with Debounce.Fetched k _ _ => k <> socket | _ => True end ->
  exists lives,
    Debounce.inbox socket (Debounce.step s ev) = Debounce.inbox socket s ++ lives /\
    Forall Debounce.isLive lives /\
    (socket ∉ Debounce.awaiting s -> socket ∉ Debounce.awaiting (Debounce.step s ev)).
Proof.
  intros Hconn Hfetch.
  destruct ev as [k ip now | k rpc clock | e txHash now | k]; cbn [Debounce.step].
  - exists []. rewrite app_nil_r. unfold Debounce.onConnection, Debounce.socketEmit, Debounce.disconnect.
    cbn [Debounce.clientLastRequest Debounce.set_sockets Debounce.tradeBuffer
         Debounce.set_clientLastRequest Debounce.sockets].
    repeat case_match; (split; [| split; [constructor |]]);
      cbn [Debounce.awaiting Debounce.set_sockets Debounce.set_awaiting
           Debounce.set_clientLastRequest Debounce.set_wire]; try done.
    + rewrite not_elem_of_cons. by intros ?.
    + rewrite Debounce_inbox_snoc, bool_decide_false by done. by rewrite app_nil_r.
  - assert (k <> socket \/ k ∉ Debounce.awaiting s) as Hk.
    { destruct Hfetch as [Hf | Hf]; [| by left].
      destruct (decide (k = socket)) as [-> | ?]; [by right | by left]. }
    exists []. rewrite app_nil_r. unfold Debounce.onFetched, Debounce.socketEmit.
    case_bool_decide as Hin.
    + destruct Hk as [Hk | Hk]; [| done].
      cbn [Debounce.sockets Debounce.set_tradeBuffer Debounce.set_awaiting Debounce.tradeBuffer].
      case_bool_decide.
      * rewrite Debounce_inbox_snoc, bool_decide_false by done.
        rewrite app_nil_r. split; [done | split; [constructor |]].
        cbn [Debounce.awaiting Debounce.set_wire Debounce.set_tradeBuffer Debounce.set_awaiting].
        rewrite list_elem_of_filter. tauto.
      * split; [done | split; [constructor |]].
        cbn [Debounce.awaiting Debounce.set_wire Debounce.set_tradeBuffer Debounce.set_awaiting].
        rewrite list_elem_of_filter. tauto.
    + done.
  - destruct (Debounce_onSwap_lives socket e txHash now s) as (lives & E & Hl & Ha).
    exists lives. split; [done | split; [done |]]. by rewrite Ha.
  - exists []. rewrite app_nil_r. done.
Qed.

Lemma Debounce_run_lives socket evs : forall s,
  Debounce.noConnectionOf socket evs ->
  socket ∉ Debounce.awaiting s \/ Debounce.noFetchedOf socket evs ->
  exists lives,
    Debounce.inbox socket (Debounce.run evs s) = Debounce.inbox socket s ++ lives /\
    Forall Debounce.isLive lives.
Proof.
  induction evs as [| ev evs IH]; intros s Hconn Hfetch.
  - exists []. by rewrite app_nil_r.
  - apply Forall_cons in Hconn as [Hc Hconn].
    change (Debounce.run (ev :: evs) s) with (Debounce.run evs (Debounce.step s ev)).
    destruct (Debounce_step_lives socket s ev Hc) as (l1 & E1 & Hl1 & Hkeep).
    { destruct Hfetch as [Hf | Hf]; [by left |]. right. by apply Forall_cons in Hf as [? _]. }
    destruct (IH (Debounce.step s ev) Hconn) as (l2 & E2 & Hl2).
    { destruct Hfetch as [Hf | Hf]; [left; by apply Hkeep |].
      right. by apply Forall_cons in Hf as [_ ?]. }
    exists (l1 ++ l2). rewrite E2, E1, app_assoc. split; [done | by apply Forall_app].
Qed.

Lemma Persist_step_lives socket s ev :
  match ev with Persist.Connection k _ _ => k <> socket | _ => True end ->
  exists lives,
    Persist.inbox socket (Persist.step s ev) = Persist.inbox socket s ++ lives /\
    Forall Persist.isLive lives.
Proof.
  intros Hconn.
  destruct ev as [k ip now | rpc clock | tx now | e txHash now | k]; cbn [Persist.step].
  - exists []. rewrite app_nil_r. split; [| constructor].
    unfold Persist.onConnection, Persist.socketEmit, Persist.inbox.
    case_bool_decide; [| done].
    cbn [Persist.wire Persist.set_wire Persist.set_sockets].
    rewrite omap_app. simpl. rewrite bool_decide_false by done. by rewrite app_nil_r.
  - exists []. rewrite app_nil_r. split; [| constructor].
    by destruct (Persist_fetchInitialTrades_buffer rpc clock s) as [-> | ->].
  - eexists. split.
    + unfold Persist.inbox, Persist.onTransactionsNew, Persist.ioEmit.
      cbn [Persist.wire Persist.set_wire Persist.saveTradesToFile Persist.set_tradeBuffer
           Persist.sockets].
      apply omap_app.
    + eapply Forall_impl; [apply omap_broadcast |]. by intros q ->.
  - unfold Persist.onSwap. destruct (Persist.swapTrade e txHash now) as [trade |].
    + eexists. split.
      * unfold Persist.inbox, Persist.emitNewTrade, Persist.ioEmit.
        cbn [Persist.wire Persist.set_wire Persist.saveTradesToFile Persist.set_tradeBuffer
             Persist.sockets].
        apply omap_app.
      * eapply Forall_impl; [apply omap_broadcast |]. by intros q ->.
    + exists []. by rewrite app_nil_r.
  - exists []. by rewrite app_nil_r.
Qed.

Lemma Persist_run_lives socket evs : forall s,
  Persist.noConnectionOf socket evs ->
  exists lives,
    Persist.inbox socket (Persist.run evs s) = Persist.inbox socket s ++ lives /\
    Forall Persist.isLive lives.
Proof.
  induction evs as [| ev evs IH]; intros s Hconn.
  - exists []. by rewrite app_nil_r.
  - apply Forall_cons in Hconn as [Hc Hconn].
    change (Persist.run (ev :: evs) s) with (Persist.run evs (Persist.step s ev)).
    destruct (Persist_step_lives socket s ev Hc) as (l1 & E1 & Hl1).
    destruct (IH (Persist.step s ev) Hconn) as (l2 & E2 & Hl2).
    exists (l1 ++ l2). rewrite E2, E1, app_assoc. split; [done | by apply Forall_app].
Qed.

Lemma Persist_onConnection_inbox socket s :
  Persist.inbox socket (Persist.onConnection socket s) =
    Persist.inbox socket s ++ [Persist.transaction_history (Persist.tradeBuffer s)].
Proof.
  unfold Persist.onConnection, Persist.socketEmit, Persist.inbox.
  cbn [Persist.sockets Persist.set_sockets].
  rewrite bool_decide_true by constructor.
  cbn [Persist.wire Persist.set_wire Persist.set_sockets Persist.tradeBuffer].
  rewrite omap_app. simpl. by rewrite bool_decide_true.
Qed.

Lemma Debounce_onConnection_nonempty socket ip now s :
  Debounce.tradeBuffer s <> [] ->
  5000 <= now - default 0 (Debounce.clientLastRequest s !! ip) ->
  Debounce.inbox socket (Debounce.onConnection socket ip now s) =
    Debounce.inbox socket s ++ [Debounce.trades_all (Debounce.tradeBuffer s)] /\
  Debounce.awaiting (Debounce.onConnection socket ip now s) = Debounce.awaiting s.
Proof.
  intros Hbuf Hge. unfold Debounce.onConnection, Debounce.socketEmit.
  cbn [Debounce.clientLastRequest Debounce.set_sockets Debounce.tradeBuffer
       Debounce.set_clientLastRequest Debounce.sockets].
  rewrite (proj2 (Z.ltb_ge _ _) Hge).
  destruct (Debounce.tradeBuffer s) as [| trade rest] eqn:E; [done |].
  cbn [length Nat.eqb]. rewrite bool_decide_true by constructor.
  rewrite Debounce_inbox_snoc, bool_decide_true by done. done.
Qed.

Lemma Debounce_onConnection_empty socket ip now s :
  Debounce.tradeBuffer s = [] ->
  5000 <= now - default 0 (Debounce.clientLastRequest s !! ip) ->
  Debounce.wire (Debounce.onConnection socket ip now s) = Debounce.wire s /\
  Debounce.tradeBuffer (Debounce.onConnection socket ip now s) = [] /\
  socket ∈ Debounce.awaiting (Debounce.onConnection socket ip now s) /\
  socket ∈ Debounce.sockets (Debounce.onConnection socket ip now s).
Proof.
  intros Hbuf Hge. unfold Debounce.onConnection.
  cbn [Debounce.clientLastRequest Debounce.set_sockets Debounce.tradeBuffer
       Debounce.set_clientLastRequest Debounce.sockets].
  rewrite (proj2 (Z.ltb_ge _ _) Hge), Hbuf. simpl.
  repeat split; [done | apply list_elem_of_here | apply list_elem_of_here].
Qed.

Lemma Debounce_onFetched_snapshot socket rpc clock s :
  socket ∈ Debounce.awaiting s -> socket ∈ Debounce.sockets s ->
  Debounce.tradeBuffer (Debounce.onFetched socket rpc clock s) =
    Swap.fetchInitialTrades rpc clock (Debounce.tradeBuffer s) /\
  Debounce.inbox socket (Debounce.onFetched socket rpc clock s) =
    Debounce.inbox socket s ++
      [Debounce.trades_all (Swap.fetchInitialTrades rpc clock (Debounce.tradeBuffer s))] /\
  socket ∉ Debounce.awaiting (Debounce.onFetched socket rpc clock s).
Proof.
  intros Hwait Hconn. unfold Debounce.onFetched, Debounce.socketEmit.
  rewrite bool_decide_true by done.
  cbn [Debounce.sockets Debounce.set_tradeBuffer Debounce.set_awaiting Debounce.tradeBuffer].
  rewrite bool_decide_true by done.
  split; [done |]. split.
  - rewrite Debounce_inbox_snoc, bool_decide_true by done. done.
  - cbn [Debounce.awaiting Debounce.set_wire Debounce.set_tradeBuffer Debounce.set_awaiting].
    rewrite list_elem_of_filter. tauto.
Qed.

(** What a socket is sent around its attach.  In [Persist] always, and in
    [Debounce] when the history is not empty, the connection handler writes
    the history at once, so everything the socket is sent afterwards is a
    per-trade message.  In [Debounce] with an empty history the handler
    writes nothing and waits for the backfill; while it waits the socket is
    sent the per-trade messages of the trades published meanwhile; when the
    backfill settles the socket is sent the history as it is then, and
    per-trade messages only from there on. *)
Theorem snapshot_on_attach :
  (forall s socket evs,
     Persist.noConnectionOf socket evs ->
     exists lives,
       Persist.inbox socket (Persist.run evs (Persist.onConnection socket s)) =
         Persist.inbox socket s ++ Persist.transaction_history (Persist.tradeBuffer s) :: lives /\
       Forall Persist.isLive lives) /\
  (forall s socket ip now evs,
     Debounce.connected socket (Debounce.onConnection socket ip now s) = true ->
     Debounce.tradeBuffer s <> [] ->
     socket ∉ Debounce.awaiting s ->
     Debounce.noConnectionOf socket evs ->
     exists lives,
       Debounce.inbox socket (Debounce.run evs (Debounce.onConnection socket ip now s)) =
         Debounce.inbox socket s ++ Debounce.trades_all (Debounce.tradeBuffer s) :: lives /\
       Forall Debounce.isLive lives) /\
  (forall s socket ip now evs,
     Debounce.connected socket (Debounce.onConnection socket ip now s) = true ->
     Debounce.tradeBuffer s = [] ->
     Debounce.noConnectionOf socket evs ->
     Debounce.noFetchedOf socket evs ->
     exists lives,
       Debounce.inbox socket (Debounce.run evs (Debounce.onConnection socket ip now s)) =
         Debounce.inbox socket s ++ lives /\
       Forall Debounce.isLive lives) /\
  (forall s socket rpc clock evs,
     socket ∈ Debounce.awaiting s ->
     socket ∈ Debounce.sockets s ->
     Debounce.noConnectionOf socket evs ->
     exists lives,
       Debounce.inbox socket (Debounce.run evs (Debounce.onFetched socket rpc clock s)) =
         Debounce.inbox socket s ++
           Debounce.trades_all (Swap.fetchInitialTrades rpc clock (Debounce.tradeBuffer s)) :: lives /\
       Forall Debounce.isLive lives).
Proof.
  split; [| split; [| split]].
  - intros s socket evs Hconn.
    destruct (Persist_run_lives socket evs (Persist.onConnection socket s) Hconn)
      as (lives & E & Hl).
    exists lives. rewrite E, Persist_onConnection_inbox, <- app_assoc. done.
  - intros s socket ip now evs Hacc Hbuf Hwait Hconn.
    rewrite Debounce_connected_onConnection, negb_true_iff, Z.ltb_ge in Hacc.
    destruct (Debounce_onConnection_nonempty socket ip now s Hbuf Hacc) as [E0 Ha].
    destruct (Debounce_run_lives socket evs (Debounce.onConnection socket ip now s) Hconn)
      as (lives & E & Hl); [left; by rewrite Ha |].
    exists lives. rewrite E, E0, <- app_assoc. done.
  - intros s socket ip now evs Hacc Hbuf Hconn Hfetch.
    rewrite Debounce_connected_onConnection, negb_true_iff, Z.ltb_ge in Hacc.
    destruct (Debounce_onConnection_empty socket ip now s Hbuf Hacc) as (Hw & _).
    destruct (Debounce_run_lives socket evs (Debounce.onConnection socket ip now s) Hconn)
      as (lives & E & Hl); [by right |].
    exists lives. rewrite E. unfold Debounce.inbox. by rewrite Hw.
  - intros s socket rpc clock evs Hwait Hin Hconn.
    destruct (Debounce_onFetched_snapshot socket rpc clock s Hwait Hin) as (_ & E0 & Ha).
    destruct (Debounce_run_lives socket evs (Debounce.onFetched socket rpc clock s) Hconn)
      as (lives & E & Hl); [by left |].
    exists lives. rewrite E, E0, <- app_assoc. done.
Qed.

(** C8: the connection handler of [Debounce] does not keep the snapshot
    ahead of the live messages when the history is empty at attach, as its
    other branch and the handler of [Persist] do.  A subscriber attaches, a
    buy is published before the backfill of its handler returns: it is sent
    the per-trade message of the buy first and the history afterwards.  When
    the backfill succeeds the history sent is the backfilled one, without
    the buy; when the backfill fails the history sent holds the buy, which
    the subscriber so receives twice. *)
Theorem snapshot_overtaken_on_empty_history :
  Debounce.connected 1 (Debounce.run attachDuringBackfill Debounce.initial) = true /\
  Debounce.inbox 1 (Debounce.run attachDuringBackfill Debounce.initial) =
    [Debounce.trades_one liveBuy; Debounce.trades_all []] /\
  Debounce.inbox 1 (Debounce.run attachDuringFailedBackfill Debounce.initial) =
    [Debounce.trades_one liveBuy; Debounce.trades_all [liveBuy]].
Proof. repeat split; vm_compute; reflexivity. Qed.

(** A subscriber attaches to [Persist] and an external transaction follows;
    a subscriber attaches to [Debounce] when the history holds one trade
    and a sell follows; a subscriber attaches to [Debounce] with an empty
    history and a buy is published while it waits; its backfill settles. *)
Lemma snapshot_on_attach_witness :
  (exists lives,
     Persist.inbox 1
       (Persist.run [Persist.Transaction bareTx "t"]
          (Persist.onConnection 1 (Persist.initial None))) =
       Persist.inbox 1 (Persist.initial None) ++
         Persist.transaction_history (Persist.tradeBuffer (Persist.initial None)) :: lives /\
     Forall Persist.isLive lives) /\
  (exists lives,
     Debounce.inbox 1
       (Debounce.run [Debounce.SwapEvent aSell None "t"]
          (Debounce.onConnection 1 "10.0.0.1" 1700000000000 historyOfOne)) =
       Debounce.inbox 1 historyOfOne ++
         Debounce.trades_all (Debounce.tradeBuffer historyOfOne) :: lives /\
     Forall Debounce.isLive lives) /\
  (exists lives,
     Debounce.inbox 1
       (Debounce.run [Debounce.SwapEvent aBuy None "t"]
          (Debounce.onConnection 1 "10.0.0.1" 1700000000000 Debounce.initial)) =
       Debounce.inbox 1 Debounce.initial ++ lives /\
     Forall Debounce.isLive lives) /\
  (exists lives,
     Debounce.inbox 1
       (Debounce.run []
          (Debounce.onFetched 1 quietNode atT
             (Debounce.onConnection 1 "10.0.0.1" 1700000000000 Debounce.initial))) =
       Debounce.inbox 1 (Debounce.onConnection 1 "10.0.0.1" 1700000000000 Debounce.initial) ++
         Debounce.trades_all
           (Swap.fetchInitialTrades quietNode atT
              (Debounce.tradeBuffer
                 (Debounce.onConnection 1 "10.0.0.1" 1700000000000 Debounce.initial))) :: lives /\
     Forall Debounce.isLive lives).
Proof.
  split; [| split; [| split]].
  - apply (proj1 snapshot_on_attach (Persist.initial None) 1%nat
             [Persist.Transaction bareTx "t"%string]).
    repeat constructor.
  - apply (proj1 (proj2 snapshot_on_attach) historyOfOne 1%nat "10.0.0.1"%string 1700000000000
             [Debounce.SwapEvent aSell None "t"%string]).
    + vm_compute. reflexivity.
    + vm_compute. discriminate.
    + vm_compute. apply not_elem_of_nil.
    + repeat constructor.
  - apply (proj1 (proj2 (proj2 snapshot_on_attach)) Debounce.initial 1%nat "10.0.0.1"%string
             1700000000000 [Debounce.SwapEvent aBuy None "t"%string]).
    + vm_compute. reflexivity.
    + reflexivity.
    + repeat constructor.
    + repeat constructor.
  - apply (proj2 (proj2 (proj2 snapshot_on_attach))
             (Debounce.onConnection 1 "10.0.0.1" 1700000000000 Debounce.initial) 1%nat
             quietNode atT []).
    + vm_compute. apply list_elem_of_here.
    + vm_compute. apply list_elem_of_here.
    + constructor.
Defined.

(** ** The history as a function of the run *)

Lemma take_cons_take {A} (n : nat) (x : A) (l : list A) :
  x :: take n (take (S n) l) = take (S n) (x :: l).
Proof. simpl. f_equal. rewrite take_take. f_equal. lia. Qed.

Lemma Debounce_step_inserted s ev :
  match ev with Debounce.Fetched _ _ _ => False | _ => True end ->
  Debounce.tradeBuffer (Debounce.step s ev) =
    match Debounce_inserted ev with
    | Some trade => trade :: take 29 (Debounce.tradeBuffer s)
    | None => Debounce.tradeBuffer s
    end.
Proof.
  destruct ev as [socket ip now | socket rpc clock | e txHash now | socket];
    cbn [Debounce.step Debounce_inserted]; intros Hev.
  - apply Debounce_onConnection_buffer.
  - destruct Hev.
  - unfold Debounce.onSwap. destruct (Swap.swapTrade e txHash now) as [trade |]; [| done].
    cbn [Debounce.tradeBuffer Debounce.emitNewTrade Debounce.ioEmit Debounce.set_wire
         Debounce.set_tradeBuffer].
    apply unshiftTrade_cons.
  - done.
Qed.

(** The buffer of [Debounce] is what the [Swap] callback accepted, newest
    first, cut after 30: each insert pushes the oldest entry out, and
    subscribers coming and going change nothing.  (A backfill replaces the
    buffer, hence the condition.) *)
Theorem Debounce_history_is_newest_30 (evs : list Debounce.Event) :
  Debounce_noBackfill evs ->
  Debounce.tradeBuffer (Debounce.run evs Debounce.initial) =
    take 30 (reverse (omap Debounce_inserted evs)).
Proof.
  unfold Debounce.run, Debounce_noBackfill.
  induction evs as [| ev evs IH] using rev_ind; intros Hevs; [done |].
  apply Forall_app in Hevs as [Hevs Hev]. rewrite Forall_singleton in Hev.
  rewrite foldl_snoc, (Debounce_step_inserted _ ev Hev), (IH Hevs), omap_app, reverse_app.
  simpl. destruct (Debounce_inserted ev) as [trade |]; simpl.
  - apply (take_cons_take 29).
  - done.
Qed.

(** Thirty-one buys from the empty history. *)
Lemma Debounce_history_is_newest_30_witness :
  Debounce.tradeBuffer
    (Debounce.run (replicate 31 (Debounce.SwapEvent aBuy (Some "0xbuy"%string) "t"))
       Debounce.initial) =
  take 30 (reverse (omap Debounce_inserted
                      (replicate 31 (Debounce.SwapEvent aBuy (Some "0xbuy"%string) "t")))).
Proof.
  apply (Debounce_history_is_newest_30
           (replicate 31 (Debounce.SwapEvent aBuy (Some "0xbuy"%string) "t"%string))).
  vm_compute. repeat constructor.
Defined.

Lemma Persist_onTransactionsNew_buffer tx now s :
  Persist.tradeBuffer (Persist.onTransactionsNew tx now s) =
    Persist_externalTrade tx now :: take 99 (Persist.tradeBuffer s).
Proof.
  cbn [Persist.tradeBuffer Persist.onTransactionsNew Persist.ioEmit Persist.set_wire
       Persist.saveTradesToFile Persist.set_tradeBuffer].
  apply Persist_unshiftTrade_cons.
Qed.

Lemma Persist_emitNewTrade_tagged trade s :
  Persist.tradeBuffer (Persist.emitNewTrade trade s) =
    Persist_tagged trade :: take 99 (Persist.tradeBuffer s).
Proof.
  cbn [Persist.tradeBuffer Persist.emitNewTrade Persist.ioEmit Persist.set_wire
       Persist.saveTradesToFile Persist.set_tradeBuffer].
  apply Persist_unshiftTrade_cons.
Qed.

Lemma Persist_step_inserted s ev :
  (length (Persist.tradeBuffer s) <= 100)%nat ->
  Persist.tradeBuffer (Persist.step s ev) =
    match Persist_inserted ev with
    | Some trade => trade :: take 99 (Persist.tradeBuffer s)
    | None => Persist.tradeBuffer s
    end.
Proof.
  intros Hs.
  destruct ev as [socket ip now | rpc clock | tx now | e txHash now | socket];
    cbn [Persist.step Persist_inserted Persist_published mbind option_bind Persist_payload].
  - unfold Persist.onConnection, Persist.socketEmit. simpl. by case_match.
  - destruct (Persist_fetchInitialTrades_buffer rpc clock s) as [-> | ->]; [done |].
    simpl. by rewrite take_ge.
  - apply Persist_onTransactionsNew_buffer.
  - unfold Persist.onSwap. destruct (Persist.swapTrade e txHash now) as [trade |]; [| done].
    apply Persist_emitNewTrade_tagged.
  - done.
Qed.

Lemma Persist_buffer_run (file : option (list Persist.Trade)) (evs : list Persist.Event) :
  (length (Persist.loadTradesFromFile file) <= 100)%nat ->
  Persist.tradeBuffer (Persist.run evs (Persist.initial file)) =
    take 100 (reverse (omap Persist_inserted evs) ++ Persist.loadTradesFromFile file).
Proof.
  intros Hfile. unfold Persist.run.
  induction evs as [| ev evs IH] using rev_ind.
  - simpl. by rewrite take_ge.
  - rewrite foldl_snoc, Persist_step_inserted.
    + rewrite IH, omap_app, reverse_app. simpl.
      destruct (Persist_inserted ev) as [trade |]; simpl; [| done].
      apply (take_cons_take 99).
    + rewrite IH, length_take. lia.
Qed.

(** The buffer of [Persist] is what both sources inserted, in the order of
    arrival whatever the source, newest first, followed by what was loaded
    from the file, the whole cut after 100. *)
Theorem Persist_history_is_newest_100 (file : option (list Persist.Trade))
    (evs : list Persist.Event) :
  (length (Persist.loadTradesFromFile file) <= 100)%nat ->
  Persist.tradeBuffer (Persist.run evs (Persist.initial file)) =
    take 100 (reverse (omap Persist_inserted evs) ++ Persist.loadTradesFromFile file).
Proof. apply Persist_buffer_run. Qed.

(** An external transaction, then a buy from the pair, on top of a file
    that held one trade. *)
Lemma Persist_history_is_newest_100_witness :
  Persist.tradeBuffer
    (Persist.run [Persist.Transaction bareTx "t"; Persist.SwapEvent aBuy None "t"]
       (Persist.initial (Some [Persist_externalTrade bareTx "s"]))) =
  take 100
    (reverse (omap Persist_inserted
                [Persist.Transaction bareTx "t"; Persist.SwapEvent aBuy None "t"]) ++
     Persist.loadTradesFromFile (Some [Persist_externalTrade bareTx "s"])).
Proof.
  apply (Persist_history_is_newest_100 (Some [Persist_externalTrade bareTx "s"%string])
           [Persist.Transaction bareTx "t"%string; Persist.SwapEvent aBuy None "t"%string]).
  simpl. lia.
Defined.

(** ** Persistence *)

Lemma Persist_step_file s ev :
  Persist.loadTradesFromFile (Persist.file s) = Persist.tradeBuffer s ->
  Persist.loadTradesFromFile (Persist.file (Persist.step s ev)) =
    Persist.tradeBuffer (Persist.step s ev).
Proof.
  intros Hs.
  destruct ev as [socket ip now | rpc clock | tx now | e txHash now | socket]; cbn [Persist.step].
  - unfold Persist.onConnection, Persist.socketEmit. simpl. by case_match.
  - by destruct (Persist_fetchInitialTrades_buffer rpc clock s) as [-> | ->].
  - done.
  - unfold Persist.onSwap. by destruct (Persist.swapTrade e txHash now).
  - done.
Qed.

(** What [trades.json] holds is always the buffer: whenever the process
    stops, the process started next on that file begins with exactly the
    history the old one had, whatever happened in between and whether or
    not there was a file to begin with. *)
Theorem Persist_restart_restores_history (file : option (list Persist.Trade))
    (evs : list Persist.Event) :
  Persist.tradeBuffer (Persist.initial (Persist.file (Persist.run evs (Persist.initial file)))) =
    Persist.tradeBuffer (Persist.run evs (Persist.initial file)).
Proof.
  change (Persist.loadTradesFromFile (Persist.file (Persist.run evs (Persist.initial file))) =
          Persist.tradeBuffer (Persist.run evs (Persist.initial file))).
  unfold Persist.run. induction evs as [| ev evs IH] using rev_ind; [done |].
  rewrite foldl_snoc. by apply Persist_step_file.
Qed.

(** ** Fan-out *)

Lemma omap_broadcast_absent {P} (socket : nat) (p : P) (l : list nat) :
  socket ∉ l ->
  omap (fun kp : nat * P => if bool_decide (kp.1 = socket) then Some kp.2 else None)
    (map (fun k => (k, p)) l) = [].
Proof.
  induction l as [| k l IH]; simpl; [done |].
  rewrite not_elem_of_cons. intros [Hk Hl].
  rewrite bool_decide_false by done. by apply IH.
Qed.

Lemma omap_broadcast_once {P} (socket : nat) (p : P) (l : list nat) :
  NoDup l -> socket ∈ l ->
  omap (fun kp : nat * P => if bool_decide (kp.1 = socket) then Some kp.2 else None)
    (map (fun k => (k, p)) l) = [p].
Proof.
  induction 1 as [| k l Hk Hl IH]; simpl.
  - by intros ?%elem_of_nil.
  - rewrite elem_of_cons. intros [<- | Hin].
    + rewrite bool_decide_true by done. simpl. f_equal. by apply omap_broadcast_absent.
    + rewrite bool_decide_false by (intros ->; done). by apply IH.
Qed.

Lemma Persist_step_published socket s ev :
  match ev with Persist.Connection _ _ _ | Persist.Disconnect _ => False | _ => True end ->
  NoDup (Persist.sockets s) -> socket ∈ Persist.sockets s ->
  Persist.sockets (Persist.step s ev) = Persist.sockets s /\
  Persist.inbox socket (Persist.step s ev) =
    Persist.inbox socket s ++ match Persist_published ev with Some p => [p] | None => [] end.
Proof.
  intros Hev Hnd Hin.
  destruct ev as [k ip now | rpc clock | tx now | e txHash now | k];
    cbn [Persist.step Persist_published]; try done.
  - rewrite app_nil_r. by destruct (Persist_fetchInitialTrades_buffer rpc clock s) as [-> | ->].
  - split; [done |].
    unfold Persist.inbox, Persist.onTransactionsNew, Persist.ioEmit.
    cbn [Persist.wire Persist.set_wire Persist.saveTradesToFile Persist.set_tradeBuffer
         Persist.sockets].
    rewrite omap_app. f_equal. by apply omap_broadcast_once.
  - unfold Persist.onSwap.
    destruct (Persist.swapTrade e txHash now) as [trade |]; cbn [fmap option_fmap option_map].
    + split; [done |].
      unfold Persist.inbox, Persist.emitNewTrade, Persist.ioEmit.
      cbn [Persist.wire Persist.set_wire Persist.saveTradesToFile Persist.set_tradeBuffer
           Persist.sockets].
      rewrite omap_app. f_equal.
      by apply (omap_broadcast_once socket (Persist.trades (Persist_tagged trade))).
    + by rewrite app_nil_r.
Qed.

Lemma Debounce_step_published socket s ev :
  match ev with Debounce.Connection _ _ _ | Debounce.Disconnect _ => False | _ => True end ->
  NoDup (Debounce.sockets s) -> socket ∈ Debounce.sockets s -> socket ∉ Debounce.awaiting s ->
  Debounce.sockets (Debounce.step s ev) = Debounce.sockets s /\
  (socket ∉ Debounce.awaiting (Debounce.step s ev)) /\
  Debounce.inbox socket (Debounce.step s ev) =
    Debounce.inbox socket s ++
      match Debounce_inserted ev with Some trade => [Debounce.trades_one trade] | None => [] end.
Proof.
  intros Hev Hnd Hin Hwait.
  destruct ev as [k ip now | k rpc clock | e txHash now | k];
    cbn [Debounce.step Debounce_inserted]; try done.
  - rewrite app_nil_r. unfold Debounce.onFetched, Debounce.socketEmit.
    case_bool_decide as Hk; [| done].
    assert (k <> socket) by (intros ->; done).
    cbn [Debounce.sockets Debounce.set_tradeBuffer Debounce.set_awaiting Debounce.tradeBuffer].
    case_bool_decide.
    + rewrite Debounce_inbox_snoc, bool_decide_false, app_nil_r by done.
      split; [done |]. split; [| done].
      cbn [Debounce.awaiting Debounce.set_wire Debounce.set_tradeBuffer Debounce.set_awaiting].
      rewrite list_elem_of_filter. tauto.
    + split; [done |]. split; [| done].
      cbn [Debounce.awaiting Debounce.set_wire Debounce.set_tradeBuffer Debounce.set_awaiting].
      rewrite list_elem_of_filter. tauto.
  - unfold Debounce.onSwap. destruct (Swap.swapTrade e txHash now) as [trade |].
    + split; [done |]. split; [done |].
      unfold Debounce.inbox, Debounce.emitNewTrade, Debounce.ioEmit.
      cbn [Debounce.wire Debounce.set_wire Debounce.set_tradeBuffer Debounce.sockets].
      rewrite omap_app. f_equal.
      by apply (omap_broadcast_once socket (Debounce.trades_one trade)).
    + by rewrite app_nil_r.
Qed.

Lemma Persist_inbox_run (evs : list Persist.Event) : forall s socket,
  Persist_subscribersStay evs ->
  NoDup (Persist.sockets s) -> socket ∈ Persist.sockets s ->
  Persist.inbox socket (Persist.run evs s) =
    Persist.inbox socket s ++ omap Persist_published evs.
Proof.
  induction evs as [| ev evs IH]; intros s socket Hevs Hnd Hin.
  - by rewrite app_nil_r.
  - apply Forall_cons in Hevs as [Hev Hevs].
    change (Persist.run (ev :: evs) s) with (Persist.run evs (Persist.step s ev)).
    destruct (Persist_step_published socket s ev Hev Hnd Hin) as [Hsock E].
    rewrite IH by (rewrite ?Hsock; done). rewrite E, <- app_assoc. f_equal.
    simpl. by destruct (Persist_published ev).
Qed.

(** While no subscriber comes or goes, every connected socket is sent
    exactly one packet per trade that is published (inserted by the pair
    listener or by the external stream), each holding that one trade, in
    the order of insertion; so all subscribers are sent the same sequence.
    An external trade travels as [transaction:new], a pair trade as
    [trades]; in [Debounce] every packet is a [trades].  Events that publish
    nothing send nothing: in [Debounce] backfills may settle in between,
    and what they write into the history is sent to no socket as packets of
    single trades (the socket must not be waiting for a backfill of its
    own, which ends with the history being sent to it). *)
Theorem publish_reaches_every_subscriber_once :
  (forall evs s socket,
     Persist_subscribersStay evs ->
     NoDup (Persist.sockets s) -> socket ∈ Persist.sockets s ->
     Persist.inbox socket (Persist.run evs s) =
       Persist.inbox socket s ++ omap Persist_published evs) /\
  (forall evs s socket,
     Debounce_subscribersStay evs ->
     NoDup (Debounce.sockets s) -> socket ∈ Debounce.sockets s ->
     socket ∉ Debounce.awaiting s ->
     Debounce.inbox socket (Debounce.run evs s) =
       Debounce.inbox socket s ++ map Debounce.trades_one (omap Debounce_inserted evs)).
Proof.
  split.
  - apply Persist_inbox_run.
  - induction evs as [| ev evs IH]; intros s socket Hevs Hnd Hin Hwait.
    + by rewrite app_nil_r.
    + apply Forall_cons in Hevs as [Hev Hevs].
      change (Debounce.run (ev :: evs) s) with (Debounce.run evs (Debounce.step s ev)).
      destruct (Debounce_step_published socket s ev Hev Hnd Hin Hwait) as (Hsock & Hwait' & E).
      rewrite IH by (rewrite ?Hsock; done). rewrite E, <- app_assoc. f_equal.
      simpl. by destruct (Debounce_inserted ev).
Qed.

(** Two subscribers of [Persist]; an external transaction, a rejected swap
    and a buy arrive.  Two subscribers of [Debounce], the second still
    waiting for its backfill; a buy arrives, the backfill of the second
    settles, and a sell arrives: the first is sent the buy and the sell. *)
Lemma publish_reaches_every_subscriber_once_witness :
  Persist.inbox 2
    (Persist.run
       [Persist.Transaction bareTx "t"; Persist.SwapEvent unpaidBuy None "t";
        Persist.SwapEvent aBuy None "t"]
       (Persist.onConnection 2 (Persist.onConnection 1 (Persist.initial None)))) =
  Persist.inbox 2 (Persist.onConnection 2 (Persist.onConnection 1 (Persist.initial None))) ++
    omap Persist_published
      [Persist.Transaction bareTx "t"; Persist.SwapEvent unpaidBuy None "t";
       Persist.SwapEvent aBuy None "t"] /\
  Debounce.inbox 1
    (Debounce.run
       [Debounce.SwapEvent aBuy None "t"; Debounce.Fetched 2 nodeWithSell atT;
        Debounce.SwapEvent aSell None "t"]
       (Debounce.onConnection 2 "10.0.0.2" 1700000000000
          (Debounce.onFetched 1 quietNode atT
             (Debounce.onConnection 1 "10.0.0.1" 1700000000000 Debounce.initial)))) =
  Debounce.inbox 1
    (Debounce.onConnection 2 "10.0.0.2" 1700000000000
       (Debounce.onFetched 1 quietNode atT
          (Debounce.onConnection 1 "10.0.0.1" 1700000000000 Debounce.initial))) ++
    map Debounce.trades_one
      (omap Debounce_inserted
         [Debounce.SwapEvent aBuy None "t"; Debounce.Fetched 2 nodeWithSell atT;
          Debounce.SwapEvent aSell None "t"]).
Proof.
  split.
  - apply (proj1 publish_reaches_every_subscriber_once
             [Persist.Transaction bareTx "t"%string; Persist.SwapEvent unpaidBuy None "t"%string;
              Persist.SwapEvent aBuy None "t"%string]
             (Persist.onConnection 2 (Persist.onConnection 1 (Persist.initial None))) 2%nat).
    + repeat constructor.
    + vm_compute. apply NoDup_cons. split; [| apply NoDup_singleton].
      intros Hin. apply elem_of_cons in Hin as [Hin | Hin];
        [discriminate | by apply elem_of_nil in Hin].
    + vm_compute. constructor.
  - apply (proj2 publish_reaches_every_subscriber_once
             [Debounce.SwapEvent aBuy None "t"%string; Debounce.Fetched 2 nodeWithSell atT;
              Debounce.SwapEvent aSell None "t"%string]
             (Debounce.onConnection 2 "10.0.0.2" 1700000000000
                (Debounce.onFetched 1 quietNode atT
                   (Debounce.onConnection 1 "10.0.0.1" 1700000000000 Debounce.initial))) 1%nat).
    + repeat constructor.
    + vm_compute. apply NoDup_cons. split; [| apply NoDup_singleton].
      intros Hin. apply elem_of_cons in Hin as [Hin | Hin];
        [discriminate | by apply elem_of_nil in Hin].
    + vm_compute. apply list_elem_of_further, list_elem_of_here.
    + vm_compute. intros Hin. apply elem_of_cons in Hin as [Hin | Hin];
        [discriminate | by apply elem_of_nil in Hin].
Defined.

Lemma Persist_step_absent socket s ev :
  match ev with Persist.Connection k _ _ => k <> socket | _ => True end ->
  socket ∉ Persist.sockets s ->
  (socket ∉ Persist.sockets (Persist.step s ev)) /\
  Persist.inbox socket (Persist.step s ev) = Persist.inbox socket s.
Proof.
  intros Hev Hout.
  destruct ev as [k ip now | rpc clock | tx now | e txHash now | k]; cbn [Persist.step].
  - unfold Persist.onConnection, Persist.socketEmit, Persist.inbox.
    cbn [Persist.sockets Persist.set_sockets].
    case_bool_decide; cbn [Persist.sockets Persist.wire Persist.set_wire Persist.set_sockets].
    + split; [by rewrite not_elem_of_cons |].
      rewrite omap_app. simpl. rewrite bool_decide_false by done. by rewrite app_nil_r.
    + split; [by rewrite not_elem_of_cons | done].
  - by destruct (Persist_fetchInitialTrades_buffer rpc clock s) as [-> | ->].
  - split; [done |].
    unfold Persist.inbox, Persist.onTransactionsNew, Persist.ioEmit.
    cbn [Persist.wire Persist.set_wire Persist.saveTradesToFile Persist.set_tradeBuffer
         Persist.sockets].
    rewrite omap_app, omap_broadcast_absent by done. by rewrite app_nil_r.
  - unfold Persist.onSwap. destruct (Persist.swapTrade e txHash now) as [trade |]; [| done].
    split; [done |].
    unfold Persist.inbox. cbn [Persist.wire Persist.emitNewTrade Persist.ioEmit Persist.set_wire
      Persist.saveTradesToFile Persist.set_tradeBuffer Persist.sockets].
    rewrite omap_app, omap_broadcast_absent by done. by rewrite app_nil_r.
  - split; [| done]. cbn [Persist.disconnect Persist.sockets Persist.set_sockets].
    rewrite list_elem_of_filter. tauto.
Qed.

Lemma Debounce_step_absent socket s ev :
  match ev with Debounce.Connection k _ _ => k <> socket | _ => True end ->
  socket ∉ Debounce.sockets s ->
  (socket ∉ Debounce.sockets (Debounce.step s ev)) /\
  Debounce.inbox socket (Debounce.step s ev) = Debounce.inbox socket s.
Proof.
  intros Hev Hout.
  destruct ev as [k ip now | k rpc clock | e txHash now | k]; cbn [Debounce.step].
  - destruct (Z.ltb_spec (now - default 0 (Debounce.clientLastRequest s !! ip)) 5000)
      as [Hlt | Hge].
    + rewrite Debounce_onConnection_rejected by done.
      split; [| done]. cbn [Debounce.sockets Debounce.set_sockets].
      rewrite list_elem_of_filter, elem_of_cons. tauto.
    + destruct (Debounce_onConnection_accepted k ip now s Hge) as [_ Hs].
      split; [rewrite Hs; by rewrite not_elem_of_cons |].
      unfold Debounce.onConnection, Debounce.socketEmit.
      cbn [Debounce.clientLastRequest Debounce.set_sockets Debounce.tradeBuffer
           Debounce.set_clientLastRequest Debounce.sockets].
      rewrite (proj2 (Z.ltb_ge _ _) Hge).
      repeat case_match; try done.
      rewrite Debounce_inbox_snoc, bool_decide_false by done. by rewrite app_nil_r.
  - unfold Debounce.onFetched, Debounce.socketEmit.
    cbn [Debounce.sockets Debounce.set_tradeBuffer Debounce.set_awaiting].
    repeat case_bool_decide; try done.
    split; [done |].
    rewrite Debounce_inbox_snoc, bool_decide_false by (intros ->; done). by rewrite app_nil_r.
  - unfold Debounce.onSwap. destruct (Swap.swapTrade e txHash now) as [trade |]; [| done].
    split; [done |].
    unfold Debounce.inbox. cbn [Debounce.wire Debounce.emitNewTrade Debounce.ioEmit
      Debounce.set_wire Debounce.set_tradeBuffer Debounce.sockets].
    rewrite omap_app, omap_broadcast_absent by done. by rewrite app_nil_r.
  - split; [| done]. cbn [Debounce.disconnect Debounce.sockets Debounce.set_sockets].
    rewrite list_elem_of_filter. tauto.
Qed.

(** A socket that is not connected (it was rejected, or it has left) is
    sent nothing, whatever is published or backfilled afterwards, so long
    as no new connection arrives on it; in [Debounce] this includes the
    history that a backfill it was waiting for would have brought. *)
Theorem disconnected_socket_is_sent_nothing :
  (forall evs s socket,
     socket ∉ Persist.sockets s -> Persist.noConnectionOf socket evs ->
     Persist.inbox socket (Persist.run evs s) = Persist.inbox socket s) /\
  (forall evs s socket,
     socket ∉ Debounce.sockets s -> Debounce.noConnectionOf socket evs ->
     Debounce.inbox socket (Debounce.run evs s) = Debounce.inbox socket s).
Proof.
  split.
  - induction evs as [| ev evs IH]; intros s socket Hout Hevs; [done |].
    apply Forall_cons in Hevs as [Hev Hevs].
    change (Persist.run (ev :: evs) s) with (Persist.run evs (Persist.step s ev)).
    destruct (Persist_step_absent socket s ev Hev Hout) as [Hout' E].
    by rewrite IH.
  - induction evs as [| ev evs IH]; intros s socket Hout Hevs; [done |].
    apply Forall_cons in Hevs as [Hev Hevs].
    change (Debounce.run (ev :: evs) s) with (Debounce.run evs (Debounce.step s ev)).
    destruct (Debounce_step_absent socket s ev Hev Hout) as [Hout' E].
    by rewrite IH.
Qed.

(** A subscriber of [Debounce] attaches to an empty history and leaves
    before its backfill returns and before a buy is published. *)
Lemma disconnected_socket_is_sent_nothing_witness :
  Debounce.inbox 1
    (Debounce.run
       [Debounce.Fetched 1 nodeWithBuy atT; Debounce.SwapEvent aBuy None "t"]
       (Debounce.disconnect 1
          (Debounce.onConnection 1 "10.0.0.1" 1700000000000 Debounce.initial))) =
  Debounce.inbox 1
    (Debounce.disconnect 1 (Debounce.onConnection 1 "10.0.0.1" 1700000000000 Debounce.initial)).
Proof.
  apply (proj2 disconnected_socket_is_sent_nothing
           [Debounce.Fetched 1 nodeWithBuy atT; Debounce.SwapEvent aBuy None "t"%string]).
  - vm_compute. apply not_elem_of_nil.
  - repeat constructor.
Defined.

(** ** The registry of origins *)

Lemma Debounce_registry_step_same s1 s2 ev ip :
  Debounce_fromOrigin ip ev = true ->
  Debounce.clientLastRequest s1 !! ip = Debounce.clientLastRequest s2 !! ip ->
  Debounce.clientLastRequest (Debounce.step s1 ev) !! ip =
    Debounce.clientLastRequest (Debounce.step s2 ev) !! ip.
Proof.
  intros Hev E. rewrite !Debounce_clientLastRequest_step.
  destruct ev as [k ip' now | | |]; try done.
  cbn [Debounce_fromOrigin] in Hev. apply bool_decide_eq_true in Hev as ->.
  cbn [Debounce.step]. rewrite !Debounce_connected_onConnection, E. done.
Qed.

Lemma Debounce_registry_step_other s ev ip :
  Debounce_fromOrigin ip ev = false ->
  Debounce.clientLastRequest (Debounce.step s ev) !! ip = Debounce.clientLastRequest s !! ip.
Proof.
  intros Hev. rewrite Debounce_clientLastRequest_step.
  destruct ev as [k ip' now | | |]; try done.
  simpl in Hev. rewrite Hev. by rewrite andb_false_r.
Qed.

(** Whether an attach is accepted depends on the earlier attaches of its
    own origin only: attaches from other origins, trades, backfills and
    disconnections in between make no difference to it. *)
Theorem Debounce_origins_do_not_interfere (evs : list Debounce.Event)
    (socket : nat) (ip : string) (now : Z) :
  Debounce.connected socket
    (Debounce.onConnection socket ip now (Debounce.run evs Debounce.initial)) =
  Debounce.connected socket
    (Debounce.onConnection socket ip now
       (Debounce.run (filter (fun ev => Debounce_fromOrigin ip ev) evs) Debounce.initial)).
Proof.
  rewrite !Debounce_connected_onConnection. do 4 f_equal.
  unfold Debounce.run. induction evs as [| ev evs IH] using rev_ind; [done |].
  rewrite filter_app, !foldl_app. cbn [foldl].
  destruct (Debounce_fromOrigin ip ev) eqn:Hev.
  - rewrite filter_cons_True by (by apply Is_true_true). cbn [filter list_filter foldl].
    by apply Debounce_registry_step_same.
  - rewrite filter_cons_False by (by apply Is_true_false). cbn [filter list_filter foldl].
    by rewrite Debounce_registry_step_other.
Qed.

(** No handler removes an entry of the registry: an origin that has been
    accepted once is in [clientLastRequest] for as long as the process
    runs. *)
Theorem Debounce_registry_never_forgets (evs : list Debounce.Event) (s : Debounce.Server) :
  dom (Debounce.clientLastRequest s) ⊆ dom (Debounce.clientLastRequest (Debounce.run evs s)).
Proof.
  revert s. induction evs as [| ev evs IH]; intros s; [done |].
  change (Debounce.run (ev :: evs) s) with (Debounce.run evs (Debounce.step s ev)).
  etrans; [| apply IH].
  intros ip. rewrite !elem_of_dom, Debounce_clientLastRequest_step.
  destruct ev as [k ip' now | | |]; try done.
  by destruct (Debounce.connected k _ && bool_decide (ip' = ip)).
Qed.

(** ** Sorting and backfilling *)

Lemma sameKey_compareLogs (k x y : Log) :
  sameKey k x = true -> sameKey k y = true -> compareLogs x y = 0.
Proof.
  unfold sameKey, compareLogs. rewrite !andb_true_iff, !Z.eqb_eq.
  intros [Hb1 Ht1] [Hb2 Ht2].
  rewrite (proj2 (Z.eqb_eq (blockNumber x) (blockNumber y))) by lia. simpl. lia.
Qed.

Lemma insertLog_filter_sameKey (k x : Log) (l : list Log) :
  filter (fun y => sameKey k y) (insertLog x l) = filter (fun y => sameKey k y) (x :: l).
Proof.
  induction l as [| y l IH]; [done |].
  cbn [insertLog]. destruct (Z.leb_spec (compareLogs x y) 0) as [Hle | Hgt]; [done |].
  rewrite (filter_cons _ y), IH, !(filter_cons _ x), (filter_cons _ y).
  destruct (decide (sameKey k x)) as [Hx | Hx]; [| done].
  destruct (decide (sameKey k y)) as [Hy | Hy]; [| done].
  apply Is_true_true in Hx, Hy.
  pose proof (sameKey_compareLogs k x y Hx Hy). lia.
Qed.

(** [logs.sort] is stable here: logs of one transaction (same block, same
    transaction index) come out in the order in which the node listed
    them; the sort reorders only logs that differ in block or index. *)
Theorem sortLogs_stable (k : Log) (logs : list Log) :
  filter (fun y => sameKey k y) (sortLogs logs) = filter (fun y => sameKey k y) logs.
Proof.
  induction logs as [| x logs IH]; [done |].
  cbn [sortLogs foldr]. fold (sortLogs logs).
  by rewrite insertLog_filter_sameKey, !(filter_cons _ x), IH.
Qed.

Lemma Swap_imap_hash (l : list Log) : forall clock,
  map Swap.hash (imap (fun i log => Swap.initialTrade (clock i) log) l) = map transactionHash l.
Proof.
  induction l as [| log l IH]; intros clock; [done |].
  cbn [imap map]. f_equal. apply (IH (fun i => clock (S i))).
Qed.

(** A backfill of [Debounce] and [Store] that the node answers replaces
    the buffer: the result lists the logs of the answer newest first, one
    trade per log and at most 30, under the logs' transaction hashes, and
    nothing of the buffer it found is kept, whatever that was (also a trade
    published while the query was under way). *)
Theorem backfill_replaces_history (rpc : Rpc) (clock : nat -> string)
    (currentBlock : Z) (logs : list Log) (h : list Swap.Trade) :
  getBlockNumber rpc = Some currentBlock ->
  getLogs rpc (currentBlock - 500) currentBlock = Some logs ->
  map Swap.hash (Swap.fetchInitialTrades rpc clock h) =
    map transactionHash (take 30 (sortLogs logs)) /\
  length (Swap.fetchInitialTrades rpc clock h) = (30 `min` length logs)%nat /\
  forall h', Swap.fetchInitialTrades rpc clock h' = Swap.fetchInitialTrades rpc clock h.
Proof.
  intros Hb Hl.
  rewrite !(fetchInitialTrades_resolved rpc clock _ currentBlock logs Hb Hl).
  split; [| split].
  - apply Swap_imap_hash.
  - rewrite length_imap, length_take. f_equal.
    apply Permutation_length, sortLogs_Permutation.
  - intros h'. by rewrite (fetchInitialTrades_resolved rpc clock h' currentBlock logs Hb Hl).
Qed.

(** The node knows a buy and a sell; the buffer held the trade [liveBuy]. *)
Lemma backfill_replaces_history_witness :
  map Swap.hash
    (Swap.fetchInitialTrades
       {| currentBlockNumber := Some 1000; pairLogs := Some [sellLog; buyLog] |} atT [liveBuy]) =
    map transactionHash (take 30 (sortLogs [sellLog; buyLog])).
Proof.
  apply (backfill_replaces_history
           {| currentBlockNumber := Some 1000; pairLogs := Some [sellLog; buyLog] |}
           atT 1000 [sellLog; buyLog] [liveBuy]).
  - reflexivity.
  - vm_compute. reflexivity.
Defined.


(** ** Reconnecting, in general *)

Lemma Reconnect_onClose_run evs c :
  Reconnect.onClose c (Reconnect.run evs Reconnect.initial) =
    match c with
    | O => Reconnect.closeHandler (Reconnect.run evs Reconnect.initial)
    | S _ => Reconnect.run evs Reconnect.initial
    end.
Proof.
  unfold Reconnect.onClose. rewrite closeHandlers_initial. simpl. by destruct c.
Qed.

(** However the connections close and the timers expire: every connection
    ever constructed carries the [Swap] listener, the newest one is the
    provider, every pending timer is one of 3000 ms, and the number of
    reconnects made plus the number still pending is the number of times
    the first connection has closed; closes of later connections count for
    nothing. *)
Theorem reconnects_follow_first_connection (evs : list Reconnect.Event) :
  let net := Reconnect.run evs Reconnect.initial in
  S (Reconnect.provider net) = Reconnect.constructed net /\
  Reconnect.swapListeners net = reverse (seq 0 (Reconnect.constructed net)) /\
  Forall (fun delay => delay = 3000) (Reconnect.timers net) /\
  (Reconnect.provider net + length (Reconnect.timers net) = Reconnect_firstCloses evs)%nat.
Proof.
  simpl. unfold Reconnect.run, Reconnect_firstCloses.
  induction evs as [| ev evs (Hp & Hl & Ht & Hn)] using rev_ind; [by repeat split |].
  rewrite foldl_snoc, omap_app, length_app.
  fold (Reconnect.run evs Reconnect.initial) in *.
  set (closes := length (omap _ evs)) in *.
  destruct ev as [c |]; cbn [Reconnect.step].
  - rewrite Reconnect_onClose_run. destruct c as [| c]; cbn [omap list_omap length].
    + unfold Reconnect.closeHandler.
      cbn [Reconnect.provider Reconnect.constructed Reconnect.swapListeners Reconnect.timers].
      split; [done |]. split; [done |]. split.
      * apply Forall_app. split; [done | by constructor].
      * rewrite length_app. simpl. lia.
    + split; [done |]. split; [done |]. split; [done |]. lia.
  - unfold Reconnect.onTimeout. cbn [omap list_omap length].
    destruct (Reconnect.timers (Reconnect.run evs Reconnect.initial)) as [| delay rest] eqn:E.
    + split; [done |]. split; [done |]. split; [by rewrite E |]. rewrite E. simpl in *. lia.
    + apply Forall_cons in Ht as [_ Ht]. simpl in Hn.
      unfold Reconnect.reconnect.
      cbn [Reconnect.provider Reconnect.constructed Reconnect.swapListeners Reconnect.timers].
      split; [done |]. split; [| split; [done | lia]].
      rewrite Hl, seq_S, reverse_app. done.
Qed.

(** ** The routes *)

Lemma Curve_imap_trade curveAddress (logs : list Curve.Log) : forall clock,
  map Swap.hash (imap (fun i log => Curve.trade curveAddress (clock i) log) logs) =
    map Curve.transactionHash logs /\
  Forall (Curve_counterparty curveAddress)
    (imap (fun i log => Curve.trade curveAddress (clock i) log) logs).
Proof.
  induction logs as [| log logs IH]; intros clock; [by split |].
  destruct (IH (fun i => clock (S i))) as [Hh Hc].
  cbn [imap map]. split.
  - f_equal; [| exact Hh]. unfold Curve.trade. by destruct (Curve.args log).
  - constructor; [| exact Hc]. unfold Curve.trade, Curve_counterparty.
    by destruct (Curve.args log).
Qed.

(** When every log decodes, [logs.map] builds one trade per log. *)
Lemma Curve_map_returned curveAddress (logs : list Curve.Log) : forall clock i,
  Persist.mapFrom (fun i r => Curve.callback curveAddress (clock i) r) i
    (map Curve.returned logs) =
  Normal (imap (fun j log => Curve.trade curveAddress (clock (i + j)%nat) log) logs).
Proof.
  induction logs as [| [hash args] logs IH]; intros clock i; [done |].
  cbn [map Persist.mapFrom Curve.returned Curve.callback Curve.hashOf
       Curve.decodeEventLog Curve.transactionHash Curve.args mbind Completion_bind].
  rewrite IH. cbn [mbind Completion_bind imap]. rewrite Nat.add_0_r.
  do 2 f_equal. apply imap_ext. intros j log _. simpl. do 2 f_equal. lia.
Qed.

(** When one does not, [logs.map] throws. *)
Lemma Curve_map_undecodable curveAddress (rs : list Curve.Returned) : forall clock i,
  Exists (fun r => Curve.decodeEventLog r = None) rs ->
  exists err,
    Persist.mapFrom (fun i r => Curve.callback curveAddress (clock i) r) i rs = Throw err.
Proof.
  induction rs as [| r rs IH]; intros clock i Hex; [by apply Exists_nil in Hex |].
  cbn [Persist.mapFrom].
  destruct (Curve.decodeEventLog r) as [decoded |] eqn:E.
  - apply Exists_cons in Hex as [Hr | Hrs]; [congruence |].
    destruct (IH clock (S i) Hrs) as [err Herr]. exists err.
    assert (exists trade, Curve.callback curveAddress (clock i) r = Normal trade) as [trade ->]
      by (unfold Curve.callback; rewrite E; by eexists).
    cbn [mbind Completion_bind]. by rewrite Herr.
  - exists DecodeError.
    assert (Curve.callback curveAddress (clock i) r = Throw DecodeError) as ->
      by (unfold Curve.callback; by rewrite E).
    done.
Qed.

Lemma Curve_returned_or_undecodable (rs : list Curve.Returned) :
  (exists logs, rs = map Curve.returned logs) \/
  Exists (fun r => Curve.decodeEventLog r = None) rs.
Proof.
  induction rs as [| [hash [decoded |]] rs [[logs ->] | Hex]].
  - left. by exists [].
  - left. by exists ({| Curve.transactionHash := hash; Curve.args := decoded |} :: logs).
  - right. by apply Exists_cons_tl.
  - right. by apply Exists_cons_hd.
  - right. by apply Exists_cons_hd.
Qed.

Lemma Curve_returned_decodable (logs : list Curve.Log) :
  ~ Exists (fun r => Curve.decodeEventLog r = None) (map Curve.returned logs).
Proof.
  rewrite Exists_exists. intros (r & Hin & Hr).
  apply list_elem_of_fmap in Hin as (log & -> & _). discriminate.
Qed.

(** [GET /:curveAddress] answers 400 exactly when the address is not one,
    and then without regard to the node; 200 exactly when the address is
    one, the node answers both calls and the arguments are found in every
    log it lists; 500 exactly when the address is one and a call is
    rejected or some listed log does not decode; and only a 200 carries
    trades. *)
Theorem Curve_get_status (isAddress : string -> bool) (node : Curve.Node)
    (clock : nat -> string) (curveAddress : string) :
  (Curve.status (Curve.get isAddress node clock curveAddress) = 400 <->
     isAddress curveAddress = false) /\
  (Curve.status (Curve.get isAddress node clock curveAddress) = 200 <->
     isAddress curveAddress = true /\
     exists currentBlock logs,
       Curve.getBlockNumber node = Some currentBlock /\
       Curve.getLogs node curveAddress (currentBlock - 500) currentBlock =
         Some (map Curve.returned logs)) /\
  (Curve.status (Curve.get isAddress node clock curveAddress) = 500 <->
     isAddress curveAddress = true /\
     (Curve.getBlockNumber node = None \/
      exists currentBlock,
        Curve.getBlockNumber node = Some currentBlock /\
        (Curve.getLogs node curveAddress (currentBlock - 500) currentBlock = None \/
         exists rs,
           Curve.getLogs node curveAddress (currentBlock - 500) currentBlock = Some rs /\
           Exists (fun r => Curve.decodeEventLog r = None) rs))) /\
  (Curve.status (Curve.get isAddress node clock curveAddress) = 200 \/
   exists message, Curve.json (Curve.get isAddress node clock curveAddress) = Curve.error message).
Proof.
  unfold Curve.get.
  destruct (isAddress curveAddress); cbn [negb].
  - destruct (Curve.getBlockNumber node) as [currentBlock |]; cbn [await mbind Completion_bind].
    + destruct (Curve.getLogs node curveAddress (currentBlock - 500) currentBlock)
        as [rs |] eqn:E; cbn [await mbind Completion_bind].
      * destruct (Curve_returned_or_undecodable rs) as [[logs ->] | Hex].
        -- rewrite Curve_map_returned. cbn [Curve.status Curve.json].
           split_and!; [done | | | by left].
           ++ split; [intros _ | done]. split; [done |]. by exists currentBlock, logs.
           ++ split; [done |]. intros [_ [[=] | (cb & [= <-] & [Hn | (rs & Hrs & Hex)])]].
              ** congruence.
              ** rewrite E in Hrs. injection Hrs as <-.
                 by apply Curve_returned_decodable in Hex.
        -- destruct (Curve_map_undecodable curveAddress rs clock 0%nat Hex) as [err ->].
           cbn [Curve.status Curve.json].
           split_and!; [done | | | right; by eexists].
           ++ split; [done |]. intros [_ (cb & logs & [= <-] & Hl)].
              rewrite E in Hl. injection Hl as ->.
              by apply Curve_returned_decodable in Hex.
           ++ split; [intros _ | done]. split; [done |]. right.
              exists currentBlock. split; [done |]. right. by exists rs.
      * cbn [Curve.status Curve.json].
        split_and!; [done | | | right; by eexists].
        -- split; [done |]. intros [_ (cb & logs & [= <-] & Hl)]. congruence.
        -- split; [intros _ | done]. split; [done |]. right.
           exists currentBlock. split; [done |]. by left.
    + cbn [Curve.status Curve.json].
      split_and!; [done | | | right; by eexists].
      * split; [done |]. by intros [_ (cb & logs & [=] & _)].
      * split; [intros _ | done]. split; [done |]. by left.
  - cbn [Curve.status Curve.json].
    split_and!; [done | | | right; by eexists].
    + split; [done |]. by intros [[=] _].
    + split; [done |]. by intros [[=] _].
Qed.

(** When it answers 200 the route lists one trade per log of the node's
    answer, in the node's order, under the log's transaction hash: it
    neither sorts nor cuts the list nor leaves out trades without amounts;
    and the curve is the seller of every buy and the buyer of every sell.
    (By [Curve_get_status] these answers are all the 200 answers.) *)
Theorem Curve_get_lists_every_log (isAddress : string -> bool) (node : Curve.Node)
    (clock : nat -> string) (curveAddress : string) (currentBlock : Z) (logs : list Curve.Log) :
  isAddress curveAddress = true ->
  Curve.getBlockNumber node = Some currentBlock ->
  Curve.getLogs node curveAddress (currentBlock - 500) currentBlock =
    Some (map Curve.returned logs) ->
  exists list,
    Curve.get isAddress node clock curveAddress =
      {| Curve.status := 200; Curve.json := Curve.trades list |} /\
    map Swap.hash list = map Curve.transactionHash logs /\
    Forall (Curve_counterparty curveAddress) list.
Proof.
  intros Ha Hb Hl. unfold Curve.get. rewrite Ha, Hb. cbn [negb await mbind Completion_bind].
  rewrite Hl. cbn [await mbind Completion_bind]. rewrite Curve_map_returned.
  eexists. split; [reflexivity |]. apply Curve_imap_trade.
Qed.

(** The curve address of the repository, and a node that lists two logs. *)
Lemma Curve_get_lists_every_log_witness :
  exists list,
    Curve.get has42Characters curveNode atT curve =
      {| Curve.status := 200; Curve.json := Curve.trades list |} /\
    map Swap.hash list = ["0xb"; "0xs"]%string /\
    Forall (Curve_counterparty curve) list.
Proof.
  apply (Curve_get_lists_every_log has42Characters curveNode atT curve 1000
           [ {| Curve.transactionHash := "0xb"; Curve.args := Curve.Bought "0xalice" 0 0 |};
             {| Curve.transactionHash := "0xs"; Curve.args := Curve.Sold "0xbob" 3000000 1000000 |} ]);
    reflexivity.
Defined.

(** Both calls resolve and the answer is 500 all the same: the one log
    listed does not decode. *)
Lemma Curve_get_undecodable_log :
  Curve.get has42Characters strangeNode atT curve =
    {| Curve.status := 500; Curve.json := Curve.error "Failed to fetch trades" |}.
Proof. reflexivity. Qed.

Lemma Store_step_store s ev :
  Store.transactionStore (Store.step s ev) =
    match Store_received ev with
    | Some tx => tx :: take 99 (Store.transactionStore s)
    | None => Store.transactionStore s
    end.
Proof.
  destruct ev as [socket ip now | rpc clock | tx | e txHash now | socket];
    cbn [Store.step Store_received].
  - unfold Store.onConnection, Store.socketEmit. simpl. by case_match.
  - done.
  - apply Store_onTransactionsNew_store.
  - unfold Store.onSwap. by destruct (Swap.swapTrade e txHash now).
  - done.
Qed.

(** [GET /transactions] answers 200 with the transactions received from
    the external stream, newest first, followed by what the store held at
    the start, the whole cut after 100; trades of the pair never show up in
    it.  A subscriber that attaches at that moment is sent the same list. *)
Theorem Transactions_get_lists_newest_100 (store : list Tx.t) (evs : list Store.Event)
    (socket : nat) :
  (length store <= 100)%nat ->
  Transactions.get (Store.run evs (Store.initial store)) =
    (200, take 100 (reverse (omap Store_received evs) ++ store)) /\
  Store.inbox socket (Store.onConnection socket (Store.run evs (Store.initial store))) =
    Store.inbox socket (Store.run evs (Store.initial store)) ++
      [Store.transaction_history (Transactions.get (Store.run evs (Store.initial store))).2].
Proof.
  intros Hstore. split.
  - unfold Transactions.get. f_equal. unfold Store.run.
    induction evs as [| ev evs IH] using rev_ind.
    + simpl. by rewrite take_ge.
    + rewrite foldl_snoc, Store_step_store, IH, omap_app, reverse_app. simpl.
      destruct (Store_received ev) as [tx |]; simpl; [| done].
      apply (take_cons_take 99).
  - unfold Store.onConnection, Store.socketEmit, Store.inbox, Transactions.get.
    cbn [Store.sockets Store.set_sockets].
    rewrite bool_decide_true by constructor.
    cbn [Store.wire Store.set_wire Store.set_sockets Store.transactionStore snd].
    rewrite omap_app. simpl. by rewrite bool_decide_true.
Qed.

(** An external transaction and a buy of the pair arrive at an empty store. *)
Lemma Transactions_get_lists_newest_100_witness :
  Transactions.get (Store.run [Store.Transaction bareTx; Store.SwapEvent aBuy None "t"]
                      (Store.initial [])) =
    (200, take 100 (reverse (omap Store_received
                               [Store.Transaction bareTx; Store.SwapEvent aBuy None "t"]) ++ [])).
Proof.
  apply (Transactions_get_lists_newest_100 []
           [Store.Transaction bareTx; Store.SwapEvent aBuy None "t"%string] 1%nat).
  simpl. lia.
Defined.

(** ** The two decoders and the tags *)

(** The [Swap] callback of the second version of [server.ts] accepts and
    rejects exactly the swaps that the callback of the first version does
    and builds the same trade, written in its own record. *)
Theorem Persist_swapTrade_agrees (e : SwapArgs) (txHash : option string) (now : string) :
  Persist.swapTrade e txHash now = Persist_ofSwap <$> Swap.swapTrade e txHash now.
Proof.
  unfold Persist.swapTrade, Swap.swapTrade.
  destruct (0 <? amount1Out e)%N; cbv beta iota zeta.
  - by destruct (isZero _ || isZero _).
  - destruct (0 <? amount1In e)%N; cbv beta iota zeta; [| done].
    by destruct (isZero _ || isZero _).
Qed.

Lemma Persist_step_wire s ev :
  exists sent,
    Persist.wire (Persist.step s ev) = Persist.wire s ++ sent /\
    Forall (fun kp => Persist_wellTagged kp.2) sent.
Proof.
  destruct ev as [socket ip now | rpc clock | tx now | e txHash now | socket]; cbn [Persist.step].
  - unfold Persist.onConnection, Persist.socketEmit.
    case_bool_decide; cbn [Persist.wire Persist.set_wire Persist.set_sockets].
    + eexists. split; [done |]. by repeat constructor.
    + exists []. by rewrite app_nil_r.
  - exists []. rewrite app_nil_r.
    by destruct (Persist_fetchInitialTrades_buffer rpc clock s) as [-> | ->].
  - eexists. split; [reflexivity |].
    apply Forall_map, Forall_forall. intros k _. by split.
  - unfold Persist.onSwap. destruct (Persist.swapTrade e txHash now) as [trade |].
    + eexists. split; [reflexivity |].
      apply Forall_map, Forall_forall. intros k _. by repeat split.
    + exists []. by rewrite app_nil_r.
  - exists []. by rewrite app_nil_r.
Qed.

(** In [Persist] the event name tells the source: every trade sent as
    [trades] is tagged ocicat / OCICAT / /cat_bg.jpg, whatever tags it came
    with, and every trade sent as [transaction:new] is tagged external and
    has the empty string as seller. *)
Theorem Persist_event_name_tells_source (file : option (list Persist.Trade))
    (evs : list Persist.Event) :
  Forall (fun kp => Persist_wellTagged kp.2) (Persist.wire (Persist.run evs (Persist.initial file))).
Proof.
  unfold Persist.run. induction evs as [| ev evs IH] using rev_ind; [constructor |].
  rewrite foldl_snoc.
  destruct (Persist_step_wire (foldl Persist.step (Persist.initial file) evs) ev)
    as (sent & -> & Hsent).
  by apply Forall_app.
Qed.

(** ** Window, snapshot and stream *)

(** Every trade that a backfill of [Debounce] and [Store] writes comes from
    a log of the pair whose block is one of the 501 blocks
    [currentBlock - 500 .. currentBlock]; older and newer logs never get
    into the history this way. *)
Theorem backfill_reads_last_blocks (rpc : Rpc) (clock : nat -> string)
    (currentBlock : Z) (all : list Log) (h : list Swap.Trade) :
  getBlockNumber rpc = Some currentBlock ->
  pairLogs rpc = Some all ->
  Forall (fun hash => exists log, log ∈ all /\ transactionHash log = hash /\
                        currentBlock - 500 <= blockNumber log <= currentBlock)
    (map Swap.hash (Swap.fetchInitialTrades rpc clock h)).
Proof.
  intros Hb Hall.
  assert (getLogs rpc (currentBlock - 500) currentBlock =
          Some (filter (fun l => currentBlock - 500 <= blockNumber l /\
                                 blockNumber l <= currentBlock) all)) as Hl.
  { unfold getLogs. by rewrite Hall. }
  rewrite (fetchInitialTrades_resolved rpc clock h currentBlock _ Hb Hl), Swap_imap_hash.
  apply Forall_map, Forall_take. rewrite sortLogs_Permutation.
  apply Forall_forall. intros log [[Hlo Hhi] Hin]%list_elem_of_filter.
  exists log. simpl. by repeat split.
Qed.

(** A node at block 1000 that knows a sell in block 900 and a buy in block
    400: only the sell is backfilled. *)
Lemma backfill_reads_last_blocks_witness :
  Forall (fun hash => exists log,
            log ∈ [sellLog; {| blockNumber := 400; transactionIndex := 0;
                               transactionHash := "0xold"; decoded := aBuy |}] /\
            transactionHash log = hash /\ 1000 - 500 <= blockNumber log <= 1000)
    (map Swap.hash
       (Swap.fetchInitialTrades
          {| currentBlockNumber := Some 1000;
             pairLogs := Some [sellLog; {| blockNumber := 400; transactionIndex := 0;
                                           transactionHash := "0xold"; decoded := aBuy |}] |}
          atT [])).
Proof.
  apply (backfill_reads_last_blocks
           {| currentBlockNumber := Some 1000;
              pairLogs := Some [sellLog; {| blockNumber := 400; transactionIndex := 0;
                                            transactionHash := "0xold"; decoded := aBuy |}] |}
           atT 1000); reflexivity.
Defined.

(** In [Persist] a subscriber misses nothing and gets nothing twice: what
    it is sent on attach is the history of everything inserted before it
    attached, and from then on it is sent one packet for each trade
    inserted afterwards, in order.  (Sockets are told apart by their
    numbers, so the new one must not be among the connected.) *)
Theorem Persist_snapshot_then_stream (file : option (list Persist.Trade))
    (before after : list Persist.Event) (socket : nat) :
  (length (Persist.loadTradesFromFile file) <= 100)%nat ->
  NoDup (Persist.sockets (Persist.run before (Persist.initial file))) ->
  socket ∉ Persist.sockets (Persist.run before (Persist.initial file)) ->
  Persist_subscribersStay after ->
  Persist.inbox socket
    (Persist.run after (Persist.onConnection socket (Persist.run before (Persist.initial file)))) =
  Persist.inbox socket (Persist.run before (Persist.initial file)) ++
    Persist.transaction_history
      (take 100 (reverse (omap Persist_inserted before) ++ Persist.loadTradesFromFile file)) ::
    omap Persist_published after.
Proof.
  intros Hfile Hnd Hout Hafter.
  rewrite Persist_inbox_run; [| done | |].
  - rewrite Persist_onConnection_inbox, Persist_buffer_run by done.
    by rewrite <- app_assoc.
  - unfold Persist.onConnection, Persist.socketEmit. cbn [Persist.sockets Persist.set_sockets].
    case_bool_decide; cbn [Persist.sockets Persist.set_wire Persist.set_sockets];
      by apply NoDup_cons.
  - unfold Persist.onConnection, Persist.socketEmit. cbn [Persist.sockets Persist.set_sockets].
    case_bool_decide; cbn [Persist.sockets Persist.set_wire Persist.set_sockets];
      apply list_elem_of_here.
Qed.

(** An external transaction arrives, a subscriber attaches, a buy follows. *)
Lemma Persist_snapshot_then_stream_witness :
  Persist.inbox 1
    (Persist.run [Persist.SwapEvent aBuy None "t"]
       (Persist.onConnection 1
          (Persist.run [Persist.Transaction bareTx "t"] (Persist.initial None)))) =
  Persist.inbox 1 (Persist.run [Persist.Transaction bareTx "t"] (Persist.initial None)) ++
    Persist.transaction_history
      (take 100 (reverse (omap Persist_inserted [Persist.Transaction bareTx "t"]) ++
                 Persist.loadTradesFromFile None)) ::
    omap Persist_published [Persist.SwapEvent aBuy None "t"].
Proof.
  apply (Persist_snapshot_then_stream None [Persist.Transaction bareTx "t"%string]
           [Persist.SwapEvent aBuy None "t"%string] 1%nat).
  - simpl. lia.
  - vm_compute. constructor.
  - vm_compute. apply not_elem_of_nil.
  - repeat constructor.
Defined.
